(** * Player simulation core of the splix game server

    A shallow embedding of [gameServer/src/gameplay/Player.js] and the
    properties of its movement queue, trail bookkeeping, collision handling,
    death timers, viewport streaming and skin disambiguation.

    Conventions of the embedding:
    - grid coordinates, ids and skin ids are integers ([Z]);
    - clock readings and the sub-tile progress are rationals ([Q]); the
      rounding of JavaScript doubles is not modelled;
    - players live in a store (a list indexed by reference), because a move
      of one player marks other players dead;
    - calls into the arena, the game and the connection are appended to a
      log of events, in call order;
    - [performance.now()] reads the next value of a clock carried by the
      world;
    - the two [while] loops take fuel. *)

From Stdlib Require Import ZArith QArith String Lia Lqa.
From stdpp Require Import base list.

Local Open Scope Z_scope.

(** ** Data model *)

(** The strings "right", "down", "left", "up" and "paused". *)
Inductive Direction := Right | Down | Left | Up | Paused.

(** The strings "player", "area-bounds" and "self". *)
Inductive DeathType := ByPlayer | AreaBounds | Self.


Module Vec2.
Record t := mk { x : Z; y : Z }.
End Vec2.
Abbreviation Vec2 := Vec2.t.

Module Rect.
Record t := mk { min : Vec2; max : Vec2 }.
End Rect.
Abbreviation Rect := Rect.t.

Record MovementQueueItem := {
  direction : Direction;
  desiredPosition : Vec2;
}.

Record DeathState := {
  dieTime : Q;
  type : DeathType;
}.

(** The private fields of the class, in declaration order. [id] and
    [skinId] never change after construction. *)
Record Player := {
  id : Z;
  skinId : Z;
  currentTileType : Z;
  currentPosition : Vec2;
  lastEdgeChunkSendX : Z;
  lastEdgeChunkSendY : Z;
  nextTileProgress : Q;
  currentDirection : Direction;
  trailVertices : list Vec2;
  trailBounds : Rect;
  movementQueue : list MovementQueueItem;
  lastDeathState : option DeathState;
  permanentlyDead : bool;
  permanentlyDieTime : Q;
  allMyTilesCleared : bool;
}.

(** A reference to a player object: its index in the store. Two references
    denote the same object exactly when they are equal. *)
Abbreviation ref := nat (only parsing).

(** Calls made on the collaborators. A connection event carries the player
    whose connection receives the call. *)
Inductive Event :=
| fillPlayerSpawn (pos : Vec2) (playerId : Z)
| fillPlayerTrail (vertices : list Vec2) (playerId : Z)
| updateCapturedArea (playerId : Z)
| clearAllPlayerTiles (playerId : Z)
| broadcastPlayerState (player : ref)
| broadcastPlayerTrail (player : ref)
| broadcastPlayerDeath (player : ref) (sendPosition : bool)
| broadcastHitLineAnimation (victim mover : ref)
| sendChunk (player : ref) (rect : Rect)
| sendGameOver (player : ref) (deathType : DeathType)
| close (player : ref).

(** The constants imported from [config.js]. *)
Class Config := {
  SKINS_COUNT : Z;
  PLAYER_TRAVEL_SPEED : Q;
  UPDATES_VIEWPORT_RECT_SIZE : Z;
  VIEWPORT_EDGE_CHUNK_SIZE : Z;
  MIN_TILES_VIEWPORT_RECT_SIZE : Z;
}.

(** [checkTrailSegment(point, start, end)] imported from [util/util.js]. *)
Class Util := {
  checkTrailSegment : Vec2 -> Vec2 -> Vec2 -> bool;
}.

(** What the player reads from [game.arena], and how the arena reacts to
    the calls the player makes on it. *)
Class ArenaOps (Arena : Type) := {
  width : Arena -> Z;
  height : Arena -> Z;
  getTileValue : Arena -> Vec2 -> Z;
  onFillPlayerSpawn : Vec2 -> Z -> Arena -> Arena;
  onFillPlayerTrail : list Vec2 -> Z -> Arena -> Arena;
  onUpdateCapturedArea : Z -> Arena -> Arena;
  onClearAllPlayerTiles : Z -> Arena -> Arena;
}.

(** Why a call did not return normally: a JavaScript exception, a loop that
    used up its fuel, or a reference to no object. *)
Inductive Abort := Thrown (msg : string) | OutOfFuel | Dangling.

Inductive Outcome (A : Type) := Ok (a : A) | Stop (e : Abort).
Arguments Ok {A} a.
Arguments Stop {A} e.

(** ** Field updates *)

Definition set_currentTileType (v : Z) (p : Player) : Player :=
  {| id := id p; skinId := skinId p; currentTileType := v;
     currentPosition := currentPosition p;
     lastEdgeChunkSendX := lastEdgeChunkSendX p;
     lastEdgeChunkSendY := lastEdgeChunkSendY p;
     nextTileProgress := nextTileProgress p;
     currentDirection := currentDirection p;
     trailVertices := trailVertices p; trailBounds := trailBounds p;
     movementQueue := movementQueue p; lastDeathState := lastDeathState p;
     permanentlyDead := permanentlyDead p;
     permanentlyDieTime := permanentlyDieTime p;
     allMyTilesCleared := allMyTilesCleared p |}.

Definition set_currentPosition (v : Vec2) (p : Player) : Player :=
  {| id := id p; skinId := skinId p; currentTileType := currentTileType p;
     currentPosition := v;
     lastEdgeChunkSendX := lastEdgeChunkSendX p;
     lastEdgeChunkSendY := lastEdgeChunkSendY p;
     nextTileProgress := nextTileProgress p;
     currentDirection := currentDirection p;
     trailVertices := trailVertices p; trailBounds := trailBounds p;
     movementQueue := movementQueue p; lastDeathState := lastDeathState p;
     permanentlyDead := permanentlyDead p;
     permanentlyDieTime := permanentlyDieTime p;
     allMyTilesCleared := allMyTilesCleared p |}.

Definition set_lastEdgeChunkSendX (v : Z) (p : Player) : Player :=
  {| id := id p; skinId := skinId p; currentTileType := currentTileType p;
     currentPosition := currentPosition p;
     lastEdgeChunkSendX := v;
     lastEdgeChunkSendY := lastEdgeChunkSendY p;
     nextTileProgress := nextTileProgress p;
     currentDirection := currentDirection p;
     trailVertices := trailVertices p; trailBounds := trailBounds p;
     movementQueue := movementQueue p; lastDeathState := lastDeathState p;
     permanentlyDead := permanentlyDead p;
     permanentlyDieTime := permanentlyDieTime p;
     allMyTilesCleared := allMyTilesCleared p |}.

Definition set_lastEdgeChunkSendY (v : Z) (p : Player) : Player :=
  {| id := id p; skinId := skinId p; currentTileType := currentTileType p;
     currentPosition := currentPosition p;
     lastEdgeChunkSendX := lastEdgeChunkSendX p;
     lastEdgeChunkSendY := v;
     nextTileProgress := nextTileProgress p;
     currentDirection := currentDirection p;
     trailVertices := trailVertices p; trailBounds := trailBounds p;
     movementQueue := movementQueue p; lastDeathState := lastDeathState p;
     permanentlyDead := permanentlyDead p;
     permanentlyDieTime := permanentlyDieTime p;
     allMyTilesCleared := allMyTilesCleared p |}.

Definition set_nextTileProgress (v : Q) (p : Player) : Player :=
  {| id := id p; skinId := skinId p; currentTileType := currentTileType p;
     currentPosition := currentPosition p;
     lastEdgeChunkSendX := lastEdgeChunkSendX p;
     lastEdgeChunkSendY := lastEdgeChunkSendY p;
     nextTileProgress := v;
     currentDirection := currentDirection p;
     trailVertices := trailVertices p; trailBounds := trailBounds p;
     movementQueue := movementQueue p; lastDeathState := lastDeathState p;
     permanentlyDead := permanentlyDead p;
     permanentlyDieTime := permanentlyDieTime p;
     allMyTilesCleared := allMyTilesCleared p |}.

Definition set_currentDirection (v : Direction) (p : Player) : Player :=
  {| id := id p; skinId := skinId p; currentTileType := currentTileType p;
     currentPosition := currentPosition p;
     lastEdgeChunkSendX := lastEdgeChunkSendX p;
     lastEdgeChunkSendY := lastEdgeChunkSendY p;
     nextTileProgress := nextTileProgress p;
     currentDirection := v;
     trailVertices := trailVertices p; trailBounds := trailBounds p;
     movementQueue := movementQueue p; lastDeathState := lastDeathState p;
     permanentlyDead := permanentlyDead p;
     permanentlyDieTime := permanentlyDieTime p;
     allMyTilesCleared := allMyTilesCleared p |}.

Definition set_trailVertices (v : list Vec2) (p : Player) : Player :=
  {| id := id p; skinId := skinId p; currentTileType := currentTileType p;
     currentPosition := currentPosition p;
     lastEdgeChunkSendX := lastEdgeChunkSendX p;
     lastEdgeChunkSendY := lastEdgeChunkSendY p;
     nextTileProgress := nextTileProgress p;
     currentDirection := currentDirection p;
     trailVertices := v; trailBounds := trailBounds p;
     movementQueue := movementQueue p; lastDeathState := lastDeathState p;
     permanentlyDead := permanentlyDead p;
     permanentlyDieTime := permanentlyDieTime p;
     allMyTilesCleared := allMyTilesCleared p |}.

Definition set_trailBounds (v : Rect) (p : Player) : Player :=
  {| id := id p; skinId := skinId p; currentTileType := currentTileType p;
     currentPosition := currentPosition p;
     lastEdgeChunkSendX := lastEdgeChunkSendX p;
     lastEdgeChunkSendY := lastEdgeChunkSendY p;
     nextTileProgress := nextTileProgress p;
     currentDirection := currentDirection p;
     trailVertices := trailVertices p; trailBounds := v;
     movementQueue := movementQueue p; lastDeathState := lastDeathState p;
     permanentlyDead := permanentlyDead p;
     permanentlyDieTime := permanentlyDieTime p;
     allMyTilesCleared := allMyTilesCleared p |}.

Definition set_movementQueue (v : list MovementQueueItem) (p : Player)
  : Player :=
  {| id := id p; skinId := skinId p; currentTileType := currentTileType p;
     currentPosition := currentPosition p;
     lastEdgeChunkSendX := lastEdgeChunkSendX p;
     lastEdgeChunkSendY := lastEdgeChunkSendY p;
     nextTileProgress := nextTileProgress p;
     currentDirection := currentDirection p;
     trailVertices := trailVertices p; trailBounds := trailBounds p;
     movementQueue := v; lastDeathState := lastDeathState p;
     permanentlyDead := permanentlyDead p;
     permanentlyDieTime := permanentlyDieTime p;
     allMyTilesCleared := allMyTilesCleared p |}.

Definition set_lastDeathState (v : option DeathState) (p : Player)
  : Player :=
  {| id := id p; skinId := skinId p; currentTileType := currentTileType p;
     currentPosition := currentPosition p;
     lastEdgeChunkSendX := lastEdgeChunkSendX p;
     lastEdgeChunkSendY := lastEdgeChunkSendY p;
     nextTileProgress := nextTileProgress p;
     currentDirection := currentDirection p;
     trailVertices := trailVertices p; trailBounds := trailBounds p;
     movementQueue := movementQueue p; lastDeathState := v;
     permanentlyDead := permanentlyDead p;
     permanentlyDieTime := permanentlyDieTime p;
     allMyTilesCleared := allMyTilesCleared p |}.

Definition set_permanentlyDead (v : bool) (p : Player) : Player :=
  {| id := id p; skinId := skinId p; currentTileType := currentTileType p;
     currentPosition := currentPosition p;
     lastEdgeChunkSendX := lastEdgeChunkSendX p;
     lastEdgeChunkSendY := lastEdgeChunkSendY p;
     nextTileProgress := nextTileProgress p;
     currentDirection := currentDirection p;
     trailVertices := trailVertices p; trailBounds := trailBounds p;
     movementQueue := movementQueue p; lastDeathState := lastDeathState p;
     permanentlyDead := v;
     permanentlyDieTime := permanentlyDieTime p;
     allMyTilesCleared := allMyTilesCleared p |}.

Definition set_permanentlyDieTime (v : Q) (p : Player) : Player :=
  {| id := id p; skinId := skinId p; currentTileType := currentTileType p;
     currentPosition := currentPosition p;
     lastEdgeChunkSendX := lastEdgeChunkSendX p;
     lastEdgeChunkSendY := lastEdgeChunkSendY p;
     nextTileProgress := nextTileProgress p;
     currentDirection := currentDirection p;
     trailVertices := trailVertices p; trailBounds := trailBounds p;
     movementQueue := movementQueue p; lastDeathState := lastDeathState p;
     permanentlyDead := permanentlyDead p;
     permanentlyDieTime := v;
     allMyTilesCleared := allMyTilesCleared p |}.

Definition set_allMyTilesCleared (v : bool) (p : Player) : Player :=
  {| id := id p; skinId := skinId p; currentTileType := currentTileType p;
     currentPosition := currentPosition p;
     lastEdgeChunkSendX := lastEdgeChunkSendX p;
     lastEdgeChunkSendY := lastEdgeChunkSendY p;
     nextTileProgress := nextTileProgress p;
     currentDirection := currentDirection p;
     trailVertices := trailVertices p; trailBounds := trailBounds p;
     movementQueue := movementQueue p; lastDeathState := lastDeathState p;
     permanentlyDead := permanentlyDead p;
     permanentlyDieTime := permanentlyDieTime p;
     allMyTilesCleared := v |}.

(** ** The world and its monad *)

(** Everything a method of [Player] can read or change: the player objects,
    the arena, the calls made so far, and the clock behind
    [performance.now()], of which [reads] values have been consumed. *)
Record World (Arena : Type) := {
  players : list Player;
  arena : Arena;
  log : list Event;
  clock : nat -> Q;
  reads : nat;
}.
Arguments players {Arena} w.
Arguments arena {Arena} w.
Arguments log {Arena} w.
Arguments clock {Arena} w.
Arguments reads {Arena} w.

Section Model.
Context {cfg : Config} {util : Util} {Arena : Type} {ops : ArenaOps Arena}.

Definition set_players (v : list Player) (w : World Arena) : World Arena :=
  {| players := v; arena := arena w; log := log w; clock := clock w;
     reads := reads w |}.

Definition set_arena (v : Arena) (w : World Arena) : World Arena :=
  {| players := players w; arena := v; log := log w; clock := clock w;
     reads := reads w |}.

Definition set_log (v : list Event) (w : World Arena) : World Arena :=
  {| players := players w; arena := arena w; log := v; clock := clock w;
     reads := reads w |}.

Definition set_reads (v : nat) (w : World Arena) : World Arena :=
  {| players := players w; arena := arena w; log := log w;
     clock := clock w; reads := v |}.

(** A computation changes the world and returns a value or aborts. What
    was changed before an abort stays changed. *)
Definition M (A : Type) : Type := World Arena -> Outcome A * World Arena.

Definition ret {A} (a : A) : M A := fun w => (Ok a, w).

Definition bind {A B} (m : M A) (k : A -> M B) : M B :=
  fun w =>
    match m w with
    | (Ok a, w') => k a w'
    | (Stop e, w') => (Stop e, w')
    end.

#[export] Instance M_ret : MRet M := @ret.
#[export] Instance M_bind : MBind M := fun A B k m => bind m k.

Definition throw {A} (msg : string) : M A :=
  fun w => (Stop (Thrown msg), w).

Definition outOfFuel {A} : M A := fun w => (Stop OutOfFuel, w).

(** Reading the fields of the object behind a reference. *)
Definition getPlayer (r : ref) : M Player :=
  fun w =>
    match players w !! r with
    | Some p => (Ok p, w)
    | None => (Stop Dangling, w)
    end.

(** Assigning to fields of the object behind a reference. *)
Definition update (r : ref) (f : Player -> Player) : M unit :=
  fun w =>
    match players w !! r with
    | Some p => (Ok tt, set_players (<[r := f p]> (players w)) w)
    | None => (Stop Dangling, w)
    end.

Definition getPlayers : M (list Player) := fun w => (Ok (players w), w).

Definition getArena : M Arena := fun w => (Ok (arena w), w).

(** A call on the game or on a connection. *)
Definition emit (e : Event) : M unit :=
  fun w => (Ok tt, set_log (log w ++ [e]) w).

(** A call on the arena: recorded, and the arena reacts. *)
Definition callArena (e : Event) (f : Arena -> Arena) : M unit :=
  fun w => (Ok tt, set_arena (f (arena w)) (set_log (log w ++ [e]) w)).

(** [performance.now()]. *)
Definition performance_now : M Q :=
  fun w => (Ok (clock w (reads w)), set_reads (S (reads w)) w).

(** [for (const a of l) body(a)]. *)
Fixpoint forEach {A} (l : list A) (body : A -> M unit) : M unit :=
  match l with
  | [] => mret tt
  | a :: l' => body a;; forEach l' body
  end.

Definition liftOutcome {A} (o : Outcome A) : M A := fun w => (o, w).

(** ** The class *)

(** The field initialisers and the constructor, which registers the spawn
    area with the arena. *)
Definition initialPlayer (id0 : Z) : Player :=
  {| id := id0; skinId := 2; currentTileType := 0;
     currentPosition := Vec2.mk 20 20;
     lastEdgeChunkSendX := 20; lastEdgeChunkSendY := 20;
     nextTileProgress := 0%Q; currentDirection := Up;
     trailVertices := [];
     trailBounds := Rect.mk (Vec2.mk 0 0) (Vec2.mk 0 0);
     movementQueue := []; lastDeathState := None;
     permanentlyDead := false; permanentlyDieTime := 0%Q;
     allMyTilesCleared := false |}.

Definition newPlayer (id0 : Z) : M ref :=
  fun w =>
    let p := initialPlayer id0 in
    let w1 := set_players (players w ++ [p]) w in
    match callArena (fillPlayerSpawn (currentPosition p) id0)
            (onFillPlayerSpawn (currentPosition p) id0) w1 with
    | (_, w2) => (Ok (length (players w)), w2)
    end.

Definition getPosition (p : Player) : Vec2 := currentPosition p.

Definition isGeneratingTrail (p : Player) : bool :=
  (0 <? length (trailVertices p))%nat.

(** [Boolean(this.#lastDeathState)]. *)
Definition dead (p : Player) : bool :=
  match lastDeathState p with Some _ => true | None => false end.

Definition addScalar (v : Vec2) (s : Z) : Vec2 :=
  Vec2.mk (Vec2.x v + s) (Vec2.y v + s).

Definition getUpdatesViewport (p : Player) : Rect :=
  Rect.mk (addScalar (currentPosition p) (- UPDATES_VIEWPORT_RECT_SIZE))
          (addScalar (currentPosition p) UPDATES_VIEWPORT_RECT_SIZE).

(** [a == b] on direction strings. *)
Definition same (a b : Direction) : bool :=
  match a, b with
  | Right, Right | Down, Down | Left, Left | Up, Up | Paused, Paused => true
  | _, _ => false
  end.

Definition checkNextMoveValidity (p : Player) (desiredPosition : Vec2)
    (newDirection : Direction) : bool :=
  let cur := currentDirection p in
  let pos := currentPosition p in
  if (same cur Right || same cur Left)
     && (same newDirection Right || same newDirection Left) then false
  else if (same cur Up || same cur Down)
          && (same newDirection Up || same newDirection Down) then false
  else if same cur newDirection then false
  else if same newDirection Paused then true
  else if (same cur Left || same cur Right)
          && negb (Vec2.y desiredPosition =? Vec2.y pos) then false
  else if (same cur Up || same cur Down)
          && negb (Vec2.x desiredPosition =? Vec2.x pos) then false
  else true.

(** One round of the [while (true)] loop per unit of fuel; the round that
    finds the queue empty returns. *)
Fixpoint drainMovementQueue (fuel : nat) (this : ref) : M unit :=
  match fuel with
  | O => outOfFuel
  | S fuel' =>
      p ← getPlayer this;
      match movementQueue p with
      | [] => mret tt
      | firstItem :: _ =>
          let valid :=
            checkNextMoveValidity p (desiredPosition firstItem)
              (direction firstItem) in
          if negb valid then
            update this
              (fun p => set_movementQueue (tail (movementQueue p)) p);;
            drainMovementQueue fuel' this
          else
            update this
              (fun p => set_movementQueue (tail (movementQueue p)) p);;
            update this (set_currentPosition (desiredPosition firstItem));;
            p ← getPlayer this;
            (if isGeneratingTrail p then
               update this
                 (fun p =>
                    set_trailVertices
                      (trailVertices p ++ [desiredPosition firstItem]) p)
             else mret tt);;
            update this (set_currentDirection (direction firstItem));;
            emit (broadcastPlayerState this);;
            drainMovementQueue fuel' this
      end
  end.

Definition clientPosUpdateRequested (fuel : nat) (this : ref)
    (direction0 : Direction) (desiredPosition0 : Vec2) : M unit :=
  update this
    (fun p =>
       set_movementQueue
         (movementQueue p
            ++ [{| direction := direction0;
                   desiredPosition := desiredPosition0 |}]) p);;
  drainMovementQueue fuel this.

(** [%] is the remainder of the truncated division, [Z.rem]. A
    [SKINS_COUNT] of 1 gives NaN in JavaScript, which is not modelled. *)
Definition skinIdForPlayer (this otherPlayer : ref) : M Z :=
  me ← getPlayer this;
  other ← getPlayer otherPlayer;
  if negb (skinId me =? skinId other) || bool_decide (otherPlayer = this)
  then mret (skinId me)
  else
    let fakeSkinId := Z.rem (id me) (SKINS_COUNT - 1) in
    let fakeSkinId :=
      if fakeSkinId >=? skinId other - 1 then fakeSkinId + 1
      else fakeSkinId in
    mret fakeSkinId.

Definition getTrailVertices (p : Player) : list Vec2 := trailVertices p.

Definition die (this : ref) (deathType : DeathType) (sendPosition : bool)
  : M unit :=
  p ← getPlayer this;
  if dead p then mret tt
  else
    t ← performance_now;
    update this
      (set_lastDeathState (Some {| dieTime := t; type := deathType |}));;
    emit (broadcastPlayerDeath this sendPosition).

Definition clearAllMyTiles (this : ref) : M unit :=
  p ← getPlayer this;
  if allMyTilesCleared p then mret tt
  else
    update this (set_allMyTilesCleared true);;
    callArena (clearAllPlayerTiles (id p)) (onClearAllPlayerTiles (id p)).

(** The score fields of the game-over message are the constants 0 and the
    empty string; the event keeps the death type. *)
Definition permanentlyDie (this : ref) : M unit :=
  p ← getPlayer this;
  if permanentlyDead p then mret tt
  else
    update this (set_permanentlyDead true);;
    t ← performance_now;
    update this (set_permanentlyDieTime t);;
    clearAllMyTiles this;;
    p ← getPlayer this;
    match lastDeathState p with
    | None => throw "Assertion failed, no death state is set"
    | Some ds => emit (sendGameOver this (type ds))
    end.

Definition removedFromGame (this : ref) : M unit := clearAllMyTiles this.

Definition pointIsInTrailBounds (p : Player) (point : Vec2) : bool :=
  let bounds := trailBounds p in
  (Vec2.x point >=? Vec2.x (Rect.min bounds))
  && (Vec2.y point >=? Vec2.y (Rect.min bounds))
  && (Vec2.x point <=? Vec2.x (Rect.max bounds))
  && (Vec2.y point <=? Vec2.y (Rect.max bounds)).

(** The [for] loop over consecutive vertex pairs. *)
Fixpoint checkSegments (point : Vec2) (vertices : list Vec2) : bool :=
  match vertices with
  | start :: (end_ :: _) as rest =>
      if checkTrailSegment point start end_ then true
      else checkSegments point rest
  | _ => false
  end.

Definition pointIsInTrail (p : Player) (point : Vec2)
    (includeLastSegment : bool) : Outcome bool :=
  if isGeneratingTrail p then
    if checkSegments point (trailVertices p) then Ok true
    else if includeLastSegment then
      match last (trailVertices p) with
      | None => Stop (Thrown "Assertion failed, no trail exists")
      | Some last0 =>
          if checkTrailSegment point last0 (currentPosition p) then Ok true
          else Ok false
      end
    else Ok false
  else if includeLastSegment then
    Ok ((Vec2.x point =? Vec2.x (currentPosition p))
        && (Vec2.y point =? Vec2.y (currentPosition p)))
  else Ok false.

(** Modelled from the spec: [Game.getOverlappingTrailBoundsPlayers] is
    not part of the sources. It yields, once each and in store order, the
    players whose trail bounds contain the position, the asking player
    included. *)
Definition getOverlappingTrailBoundsPlayers (pos : Vec2) : M (list ref) :=
  ps ← getPlayers;
  mret (List.filter
          (fun r =>
             match ps !! r with
             | Some p => pointIsInTrailBounds p pos
             | None => false
             end)
          (seq 0 (length ps))).
(** The local variable [chunk] of [#sendRequiredEdgeChunks]. *)
Record Chunk := { chunk_x : Z; chunk_y : Z; chunk_w : Z; chunk_h : Z }.

Definition sendRequiredEdgeChunks (this : ref) : M unit :=
  let chunkSize := VIEWPORT_EDGE_CHUNK_SIZE in
  let viewportSize := MIN_TILES_VIEWPORT_RECT_SIZE in
  let chunk : option Chunk := None in
  p ← getPlayer this;
  chunk ←
    (if Vec2.x (currentPosition p) >=? lastEdgeChunkSendX p + chunkSize
     then
       update this (set_lastEdgeChunkSendX (Vec2.x (currentPosition p)));;
       mret (Some
               {| chunk_x := Vec2.x (currentPosition p) + viewportSize;
                  chunk_y := lastEdgeChunkSendY p - viewportSize - chunkSize;
                  chunk_w := chunkSize;
                  chunk_h := (viewportSize + chunkSize) * 2 |})
     else mret chunk);
  p ← getPlayer this;
  chunk ←
    (if Vec2.x (currentPosition p) <=? lastEdgeChunkSendX p - chunkSize
     then
       update this (set_lastEdgeChunkSendX (Vec2.x (currentPosition p)));;
       mret (Some
               {| chunk_x :=
                    Vec2.x (currentPosition p) - viewportSize - chunkSize;
                  chunk_y := lastEdgeChunkSendY p - viewportSize - chunkSize;
                  chunk_w := chunkSize;
                  chunk_h := (viewportSize + chunkSize) * 2 |})
     else mret chunk);
  p ← getPlayer this;
  chunk ←
    (if Vec2.y (currentPosition p) >=? lastEdgeChunkSendY p + chunkSize
     then
       update this (set_lastEdgeChunkSendY (Vec2.y (currentPosition p)));;
       mret (Some
               {| chunk_x := lastEdgeChunkSendX p - viewportSize - chunkSize;
                  chunk_y := Vec2.y (currentPosition p) + viewportSize;
                  chunk_w := (viewportSize + chunkSize) * 2;
                  chunk_h := chunkSize |})
     else mret chunk);
  p ← getPlayer this;
  chunk ←
    (if Vec2.y (currentPosition p) <=? lastEdgeChunkSendY p - chunkSize
     then
       update this (set_lastEdgeChunkSendY (Vec2.y (currentPosition p)));;
       mret (Some
               {| chunk_x := lastEdgeChunkSendX p - viewportSize - chunkSize;
                  chunk_y :=
                    Vec2.y (currentPosition p) - viewportSize - chunkSize;
                  chunk_w := (viewportSize + chunkSize) * 2;
                  chunk_h := chunkSize |})
     else mret chunk);
  match chunk with
  | Some c =>
      emit (sendChunk this
              (Rect.mk (Vec2.mk (chunk_x c) (chunk_y c))
                 (Vec2.mk (chunk_x c + chunk_w c) (chunk_y c + chunk_h c))))
  | None => mret tt
  end.

(** The four assignments to [#trailBounds] while a trail is generated. *)
Definition extendBounds (b : Rect) (pos : Vec2) : Rect :=
  Rect.mk
    (Vec2.mk (Z.min (Vec2.x (Rect.min b)) (Vec2.x pos))
       (Z.min (Vec2.y (Rect.min b)) (Vec2.y pos)))
    (Vec2.mk (Z.max (Vec2.x (Rect.max b)) (Vec2.x pos))
       (Z.max (Vec2.y (Rect.max b)) (Vec2.y pos))).

(** The body of the [for] loop over the overlapping players. *)
Definition checkHit (this player : ref) : M unit :=
  let includeLastSegment := negb (bool_decide (player = this)) in
  me ← getPlayer this;
  other ← getPlayer player;
  hit ← liftOutcome
          (pointIsInTrail other (currentPosition me) includeLastSegment);
  if hit : bool then
    let killedSelf := bool_decide (player = this) in
    die player (if killedSelf then Self else ByPlayer) killedSelf;;
    emit (broadcastHitLineAnimation player this)
  else mret tt.

Definition currentPositionChanged (this : ref) : M unit :=
  p ← getPlayer this;
  (if isGeneratingTrail p then
     update this
       (fun p => set_trailBounds
                   (extendBounds (trailBounds p) (currentPosition p)) p)
   else
     update this
       (fun p => set_trailBounds
                   (Rect.mk (currentPosition p) (currentPosition p)) p));;
  p ← getPlayer this;
  a ← getArena;
  (if (Vec2.x (currentPosition p) <=? 0)
      || (Vec2.y (currentPosition p) <=? 0)
      || (Vec2.x (currentPosition p) >=? width a - 1)
      || (Vec2.y (currentPosition p) >=? height a - 1)
   then die this AreaBounds true
   else mret tt);;
  p ← getPlayer this;
  overlapping ← getOverlappingTrailBoundsPlayers (currentPosition p);
  forEach overlapping (checkHit this);;
  sendRequiredEdgeChunks this.

Definition updateCurrentTile (this : ref) : M unit :=
  p ← getPlayer this;
  a ← getArena;
  let tileValue := getTileValue a (currentPosition p) in
  if negb (currentTileType p =? tileValue) then
    (if negb (tileValue =? id p) && negb (isGeneratingTrail p) then
       update this
         (fun p => set_trailVertices
                     (trailVertices p ++ [currentPosition p]) p);;
       emit (broadcastPlayerTrail this)
     else mret tt);;
    p ← getPlayer this;
    (if (tileValue =? id p) && isGeneratingTrail p then
       update this
         (fun p => set_trailVertices
                     (trailVertices p ++ [currentPosition p]) p);;
       p ← getPlayer this;
       (if allMyTilesCleared p then
          throw "Assertion failed, player tiles have already been removed from the arena."
        else mret tt);;
       callArena (fillPlayerTrail (trailVertices p) (id p))
         (onFillPlayerTrail (trailVertices p) (id p));;
       callArena (updateCapturedArea (id p)) (onUpdateCapturedArea (id p));;
       update this (set_trailVertices []);;
       emit (broadcastPlayerTrail this)
     else mret tt);;
    update this (set_currentTileType tileValue)
  else mret tt.

(** The assignment to [#currentPosition] in the body of the tick loop. *)
Definition stepPosition (d : Direction) (pos : Vec2) : Vec2 :=
  match d with
  | Left => Vec2.mk (Vec2.x pos - 1) (Vec2.y pos)
  | Right => Vec2.mk (Vec2.x pos + 1) (Vec2.y pos)
  | Up => Vec2.mk (Vec2.x pos) (Vec2.y pos - 1)
  | Down => Vec2.mk (Vec2.x pos) (Vec2.y pos + 1)
  | Paused => pos
  end.

(** [a > b] on numbers. *)
Definition Qgtb (a b : Q) : bool := negb (Qle_bool a b).

(** One discrete grid-unit move: the body of the tick loop. *)
Definition moveOneTile (this : ref) : M unit :=
  update this
    (fun p => set_nextTileProgress (nextTileProgress p - 1)%Q p);;
  update this
    (fun p => set_currentPosition
                (stepPosition (currentDirection p) (currentPosition p)) p);;
  currentPositionChanged this;;
  updateCurrentTile this.

(** [while (this.#nextTileProgress > 1)], one round per unit of fuel. *)
Fixpoint moveWhileProgress (fuel : nat) (this : ref) : M unit :=
  p ← getPlayer this;
  if Qgtb (nextTileProgress p) 1 then
    match fuel with
    | O => outOfFuel
    | S fuel' => moveOneTile this;; moveWhileProgress fuel' this
    end
  else mret tt.

(** The second half of [loop]: the two death timers. *)
Definition checkDeathTimers (this : ref) : M unit :=
  p ← getPlayer this;
  match lastDeathState p with
  | Some ds =>
      t ← performance_now;
      let dt := (t - dieTime ds)%Q in
      if Qgtb dt 600 then permanentlyDie this else mret tt
  | None => mret tt
  end;;
  p ← getPlayer this;
  if permanentlyDead p then
    t ← performance_now;
    let dt := (t - permanentlyDieTime p)%Q in
    if Qgtb dt 5000 then emit (close this) else mret tt
  else mret tt.

(** [loop(now, dt)]; the parameter [now] is not used by the method. *)
Definition loop (fuel : nat) (this : ref) (now dt : Q) : M unit :=
  p ← getPlayer this;
  (if negb (same (currentDirection p) Paused) && negb (dead p) then
     update this
       (fun p => set_nextTileProgress
                   (nextTileProgress p + dt * PLAYER_TRAVEL_SPEED)%Q p);;
     moveWhileProgress fuel this
   else mret tt);;
  checkDeathTimers this.

(** [put r p w] is the world [w] with the object behind [r] replaced by
    [p]; a reference is valid when it denotes an object of the store. *)
Definition put (r : ref) (p : Player) (w : World Arena) : World Arena :=
  set_players (<[r := p]> (players w)) w.

Definition valid (r : ref) (w : World Arena) : Prop :=
  (r < length (players w))%nat.

(** The calls made between two worlds of one run. *)
Definition newEvents (w w' : World Arena) : list Event :=
  drop (length (log w)) (log w').
End Model.

Arguments M Arena A : clear implicits.

(** ** Sample collaborators

    Concrete stand-ins for what lives outside [Player.js], used to run the
    model on examples. *)

Definition sampleConfig : Config :=
  {| SKINS_COUNT := 13;
     PLAYER_TRAVEL_SPEED := (6 # 1000)%Q;
     UPDATES_VIEWPORT_RECT_SIZE := 30;
     VIEWPORT_EDGE_CHUNK_SIZE := 5;
     MIN_TILES_VIEWPORT_RECT_SIZE := 20 |}.

(** Modelled from the spec: [checkTrailSegment] of [util/util.js] is not
    part of the sources. The spec describes it as the test whether a point
    lies on a line segment; trail segments are parallel to an axis. *)
Definition onSegment (point start end_ : Vec2) : bool :=
  ((Vec2.x start =? Vec2.x end_) && (Vec2.x point =? Vec2.x start)
   && (Z.min (Vec2.y start) (Vec2.y end_) <=? Vec2.y point)
   && (Vec2.y point <=? Z.max (Vec2.y start) (Vec2.y end_)))
  || ((Vec2.y start =? Vec2.y end_) && (Vec2.y point =? Vec2.y start)
      && (Z.min (Vec2.x start) (Vec2.x end_) <=? Vec2.x point)
      && (Vec2.x point <=? Z.max (Vec2.x start) (Vec2.x end_))).

Definition sampleUtil : Util := {| checkTrailSegment := onSegment |}.

(** A small arena: its size and the owner of each listed tile, 0 for the
    others. Filling a trail gives its vertices to the player (the interior
    is left alone) and clearing takes every tile of the player away. *)
Record Grid := {
  gridWidth : Z;
  gridHeight : Z;
  owned : list (Vec2 * Z);
}.

Definition sameTile (a b : Vec2) : bool :=
  (Vec2.x a =? Vec2.x b) && (Vec2.y a =? Vec2.y b).

Definition ownerOf (g : Grid) (pos : Vec2) : Z :=
  match List.find (fun t => sameTile (fst t) pos) (owned g) with
  | Some t => snd t
  | None => 0
  end.

Definition give (vs : list Vec2) (playerId : Z) (g : Grid) : Grid :=
  {| gridWidth := gridWidth g; gridHeight := gridHeight g;
     owned := map (fun v => (v, playerId)) vs ++ owned g |}.

Definition takeAway (playerId : Z) (g : Grid) : Grid :=
  {| gridWidth := gridWidth g; gridHeight := gridHeight g;
     owned := List.filter (fun t => negb (snd t =? playerId)) (owned g) |}.

Definition sampleArena : ArenaOps Grid :=
  {| width := gridWidth;
     height := gridHeight;
     getTileValue := ownerOf;
     onFillPlayerSpawn := fun pos playerId => give [pos] playerId;
     onFillPlayerTrail := give;
     onUpdateCapturedArea := fun _ g => g;
     onClearAllPlayerTiles := takeAway |}.

(** A clock that shows the same time at every reading. *)
Definition stopped (t : Q) : nat -> Q := fun _ => t.

(** A 100 x 100 arena without owned tiles, holding the given players. *)
Definition worldOf (ps : list Player) (time : nat -> Q) : World Grid :=
  {| players := ps;
     arena := {| gridWidth := 100; gridHeight := 100; owned := [] |};
     log := []; clock := time; reads := 0 |}.

(** ** Vocabulary of the properties *)

Definition horizontal (d : Direction) : Prop := d = Left \/ d = Right.

Definition vertical (d : Direction) : Prop := d = Up \/ d = Down.

(** A player as constructed, then heading in direction [d]. *)
Definition heading (d : Direction) (playerId : Z) : Player :=
  set_currentDirection d (initialPlayer playerId).

(** A player as constructed, then marked dead at time [t]. *)
Definition markedDead (t : Q) (ty : DeathType) (playerId : Z) : Player :=
  set_lastDeathState (Some {| dieTime := t; type := ty |})
    (initialPlayer playerId).

(** The rectangle with corner (x,y), width [w] and height [h]. *)
Definition chunkRect (x y w h : Z) : Rect :=
  Rect.mk (Vec2.mk x y) (Vec2.mk (x + w) (y + h)).

(** A player, as constructed, at another position. *)
Definition standingAt (pos : Vec2) (playerId : Z) : Player :=
  set_currentPosition pos (initialPlayer playerId).

(** A player, as constructed, whose trail has the given vertices and that
    stands at the given position. *)
Definition trailing (vertices : list Vec2) (pos : Vec2) (playerId : Z)
  : Player :=
  set_trailVertices vertices (standingAt pos playerId).

(** An arena of 100 x 100 tiles with the given owned tiles. *)
Definition arenaWith (tiles : list (Vec2 * Z)) : Grid :=
  {| gridWidth := 100; gridHeight := 100; owned := tiles |}.

Definition worldWith (ps : list Player) (tiles : list (Vec2 * Z))
    (time : nat -> Q) : World Grid :=
  {| players := ps; arena := arenaWith tiles; log := []; clock := time;
     reads := 0 |}.

(** What marking a player dead and sending edge chunks leave alone: trail,
    bounds and position, which the collision test reads, and the id and
    the cached tile value. *)
Definition geom (p : Player) : list Vec2 * Rect * Vec2 * Z * Z :=
  (trailVertices p, trailBounds p, currentPosition p, id p,
   currentTileType p).

Definition sameGeom {Arena} (w w' : World Arena) : Prop :=
  geom <$> players w = geom <$> players w'.

(** The player a death or hit-line announcement is about. *)
Definition victimOf (e : Event) : option ref :=
  match e with
  | broadcastPlayerDeath q _ => Some q
  | broadcastHitLineAnimation q _ => Some q
  | _ => None
  end.

(** The death and hit-line announcements about player [q], in call order. *)
Definition about (q : ref) (evs : list Event) : list Event :=
  List.filter (fun e => bool_decide (victimOf e = Some q)) evs.

(** The boundary test of [#currentPositionChanged]. *)
Definition onEdge {Arena} {ops : ArenaOps Arena} (a : Arena) (pos : Vec2)
  : bool :=
  (Vec2.x pos <=? 0) || (Vec2.y pos <=? 0)
  || (Vec2.x pos >=? width a - 1) || (Vec2.y pos >=? height a - 1).

(** The trail test of [#currentPositionChanged] as a truth value. *)
Definition hitOn {util : Util} (a : Player) (pos : Vec2)
    (includeLastSegment : bool) : bool :=
  match pointIsInTrail a pos includeLastSegment with
  | Ok b => b
  | Stop _ => false
  end.

(** The death state [die] records for a victim struck by mover [r]. *)
Definition struckState (t : Q) (q r : ref) : option DeathState :=
  Some {| dieTime := t;
          type := if bool_decide (q = r) then Self else ByPlayer |}.

(** The announcements about a victim that is struck. *)
Definition struckEvents (a : Player) (q r : ref) : list Event :=
  (if dead a then [] else [broadcastPlayerDeath q (bool_decide (q = r))])
  ++ [broadcastHitLineAnimation q r].

(** The assignment to [#trailBounds] at the start of
    [#currentPositionChanged]. *)
Definition boundsAfterMove (p : Player) : Rect :=
  if isGeneratingTrail p
  then extendBounds (trailBounds p) (currentPosition p)
  else Rect.mk (currentPosition p) (currentPosition p).

(** The mover after the boundary test of [#currentPositionChanged], which
    reads the clock at [t] if it marks the mover dead. *)
Definition afterEdgeTest (edge : bool) (t : Q) (p : Player) : Player :=
  if edge && negb (dead p)
  then set_lastDeathState (Some {| dieTime := t; type := AreaBounds |})
         (set_trailBounds (boundsAfterMove p) p)
  else set_trailBounds (boundsAfterMove p) p.

(** A mover at (2,9) heading down, and a player that left its area at
    (3,10), ran left into the arena edge at (0,10) and was marked dead
    there. The tile below the mover lies on the trail of the dead player. *)
Definition moverAbove : Player :=
  set_currentDirection Down (standingAt (Vec2.mk 2 9) 1).

Definition deadAtEdge : Player :=
  set_lastDeathState (Some {| dieTime := 0; type := AreaBounds |})
    (set_trailBounds (Rect.mk (Vec2.mk 0 10) (Vec2.mk 3 10))
       (set_currentDirection Left (trailing [Vec2.mk 3 10] (Vec2.mk 0 10) 2))).

(** The same player before it reached the edge, at (1,10) and alive. *)
Definition aliveNearEdge : Player :=
  set_trailBounds (Rect.mk (Vec2.mk 1 10) (Vec2.mk 3 10))
    (set_currentDirection Left (trailing [Vec2.mk 3 10] (Vec2.mk 1 10) 2)).

(** A player heading left at (2,4) whose trail runs from (1,5) up to (1,3),
    right to (3,3) and down to (3,4): one tile ahead lies its own trail,
    two tiles ahead the arena edge. *)
Definition crossingOwnTrail : Player :=
  set_trailBounds (Rect.mk (Vec2.mk 1 3) (Vec2.mk 3 5))
    (set_currentDirection Left
       (trailing [Vec2.mk 1 5; Vec2.mk 1 3; Vec2.mk 3 3; Vec2.mk 3 4]
          (Vec2.mk 2 4) 1)).

(** A player standing on the arena edge at (0,4), alive. *)
Definition steppedOnEdge : Player :=
  set_currentDirection Left (standingAt (Vec2.mk 0 4) 1).


(** A player of id 1 heading right at (20,20) that left its area at
    (18,20). *)
Definition trailingRight : Player :=
  set_trailBounds (Rect.mk (Vec2.mk 18 20) (Vec2.mk 20 20))
    (set_currentDirection Right (trailing [Vec2.mk 18 20] (Vec2.mk 20 20) 1)).

(** The fields of a player that the trail-bounds property is about. *)
Definition boundsView (p : Player) : bool * Rect * Vec2 * list Vec2 :=
  (isGeneratingTrail p, trailBounds p, currentPosition p, trailVertices p).



(** A clock that shows the listed times, one per reading, then 0. *)
Definition readings (times : list Q) : nat -> Q :=
  fun n => nth n times 0%Q.

(** A tick of player 0 with the sample collaborators. *)
Definition tick (now dt : Q) (w : World Grid) : World Grid :=
  snd (loop (cfg := sampleConfig) (util := sampleUtil) (ops := sampleArena)
         4 0%nat now dt w).

(** A player marked dead at time 0 and ticked at the times 600, 601 and
    5600; the second tick reads the clock three times. *)
Definition deathAt0 : World Grid :=
  worldOf [markedDead 0 Self 1]
    (readings [600; 601; 601; 601; 5600; 5600]%Q).

(** A player is generating a trail exactly when the cached tile value is
    not its id. The constructor does not establish this; the first tile
    change does, and it is kept from then on. *)
Definition trailMatchesTile (p : Player) : Prop :=
  isGeneratingTrail p = true <-> currentTileType p <> id p.

(** The message of the assertion in [#updateCurrentTile]. *)
Definition tilesRemovedMessage : string :=
  "Assertion failed, player tiles have already been removed from the arena.".

(** A player of id 1 on a foreign tile without a trail yet, and a player
    with a trail whose tiles were released. *)
Definition leavingArea : Player :=
  set_currentTileType 1 (standingAt (Vec2.mk 7 7) 1).

Definition trailingWithoutTiles : Player :=
  set_allMyTilesCleared true (trailing [Vec2.mk 5 5] (Vec2.mk 5 6) 1).

(** The calls that release a player's tiles. *)
Definition releases (evs : list Event) : list Event :=
  List.filter
    (fun e => match e with clearAllPlayerTiles _ => true | _ => false end)
    evs.

(** The message of the assertion in [#permanentlyDie]. *)
Definition noDeathStateMessage : string :=
  "Assertion failed, no death state is set".

(** The player [trailingRight] after its turn up at (25,20) was accepted:
    the trail runs from (18,20) to (25,20), the bounds end at (20,20). *)
Definition turnedAt25 : Player :=
  set_currentDirection Up
    (set_trailVertices [Vec2.mk 18 20; Vec2.mk 25 20]
       (set_currentPosition (Vec2.mk 25 20) trailingRight)).

(** A player of id 2 standing at (23,20). *)
Definition crossingAt23 : Player := standingAt (Vec2.mk 23 20) 2.

(** ** What a computation may change

    A policy says how a computation may change the player behind each
    reference, which calls it may make, what it may do to the arena and to
    the count of clock readings, and how it may abort. *)
Record Policy (Arena : Type) := {
  playerStep : nat -> Player -> Player -> Prop;
  eventOk : Event -> Prop;
  arenaStep : Arena -> Arena -> Prop;
  readsStep : nat -> nat -> Prop;
  abortOk : Abort -> Prop;
}.
Arguments playerStep {Arena} _ _ _ _.
Arguments eventOk {Arena} _ _.
Arguments arenaStep {Arena} _ _ _.
Arguments readsStep {Arena} _ _ _.
Arguments abortOk {Arena} _ _.

(** A policy that allows to do nothing and to do two allowed things in a
    row. *)
Class Lawful {Arena} (π : Policy Arena) : Prop := {
  playerStep_refl q a : playerStep π q a a;
  playerStep_trans q a b c :
    playerStep π q a b -> playerStep π q b c -> playerStep π q a c;
  arenaStep_refl x : arenaStep π x x;
  arenaStep_trans x y z :
    arenaStep π x y -> arenaStep π y z -> arenaStep π x z;
  readsStep_refl n : readsStep π n n;
  readsStep_trans n m k :
    readsStep π n m -> readsStep π m k -> readsStep π n k;
}.

(** The world [w'] comes from [w] by changes the policy allows. No player
    is added or removed, and the clock itself is never changed. *)
Definition evolves {Arena} (π : Policy Arena) (w w' : World Arena) : Prop :=
  length (players w') = length (players w)
  /\ (forall q a a',
        players w !! q = Some a -> players w' !! q = Some a' ->
        playerStep π q a a')
  /\ (exists evs, log w' = log w ++ evs /\ Forall (eventOk π) evs)
  /\ arenaStep π (arena w) (arena w')
  /\ clock w' = clock w
  /\ readsStep π (reads w) (reads w').

(** A computation that keeps to the policy from every world, whatever its
    outcome. *)
Definition Keeps {Arena A} (π : Policy Arena) (m : M Arena A) : Prop :=
  forall w,
    evolves π w (snd (m w))
    /\ forall e, fst (m w) = Stop e -> abortOk π e.

(** The fields that the collision handling of a move assigns: the death
    state, the trail bounds and the places of the last edge chunks. Two
    players are equal up to these fields when they are equal with these
    fields blanked. *)
Definition besidesCollisions (p : Player) : Player :=
  set_lastDeathState None
    (set_lastEdgeChunkSendX 0
       (set_lastEdgeChunkSendY 0
          (set_trailBounds (Rect.mk (Vec2.mk 0 0) (Vec2.mk 0 0)) p))).

(** What [#currentPositionChanged] of the player [this] may do: record a
    death where there was none, assign the bounds and the last chunk
    places of [this], announce deaths, hit lines with [this] as the mover
    and chunks for [this], and read the clock. It does not throw. *)
Definition collisionPolicy {Arena} (this : ref) : Policy Arena :=
  {| playerStep q a a' :=
       besidesCollisions a' = besidesCollisions a
       /\ (q <> this ->
           trailBounds a' = trailBounds a
           /\ lastEdgeChunkSendX a' = lastEdgeChunkSendX a
           /\ lastEdgeChunkSendY a' = lastEdgeChunkSendY a)
       /\ (forall ds, lastDeathState a = Some ds ->
                      lastDeathState a' = Some ds);
     eventOk e :=
       match e with
       | broadcastPlayerDeath _ _ => True
       | broadcastHitLineAnimation _ mover => mover = this
       | sendChunk q _ => q = this
       | _ => False
       end;
     arenaStep := eq;
     readsStep := le;
     abortOk e := e = Dangling |}.

(** The fields that [#updateCurrentTile] assigns. *)
Definition besidesTiles (p : Player) : Player :=
  set_trailVertices [] (set_currentTileType 0 p).

(** What [#updateCurrentTile] of the player [this] may do: assign the
    trail and the cached tile value of [this], announce the trail of
    [this], and have the arena fill a trail and update the captured area.
    Its only exception is the assertion on released tiles. *)
Definition tilePolicy {Arena} (this : ref) : Policy Arena :=
  {| playerStep q a a' :=
       besidesTiles a' = besidesTiles a /\ (q <> this -> a' = a);
     eventOk e :=
       match e with
       | broadcastPlayerTrail q => q = this
       | fillPlayerTrail _ _ | updateCapturedArea _ => True
       | _ => False
       end;
     arenaStep := fun _ _ => True;
     readsStep := eq;
     abortOk e := e = Dangling \/ e = Thrown tilesRemovedMessage |}.

(** The fields that a movement intent assigns. *)
Definition besidesIntent (p : Player) : Player :=
  set_currentPosition (Vec2.mk 0 0)
    (set_currentDirection Paused
       (set_trailVertices [] (set_movementQueue [] p))).

(** What [clientPosUpdateRequested] on the player [this] may do: assign
    the position, the direction, the trail and the queue of [this], and
    announce the state of [this]. It does not throw; its loop may go on. *)
Definition intentPolicy {Arena} (this : ref) : Policy Arena :=
  {| playerStep q a a' :=
       besidesIntent a' = besidesIntent a /\ (q <> this -> a' = a);
     eventOk e := e = broadcastPlayerState this;
     arenaStep := eq;
     readsStep := eq;
     abortOk e := e = Dangling \/ e = OutOfFuel |}.

(** The one-way fields of a player: a death state, once recorded, is
    kept as it is; permanent death and the release of the tiles are not
    undone. *)
Definition latched (a a' : Player) : Prop :=
  (forall ds, lastDeathState a = Some ds -> lastDeathState a' = Some ds)
  /\ (permanentlyDead a = true -> permanentlyDead a' = true)
  /\ (allMyTilesCleared a = true -> allMyTilesCleared a' = true).

(** What the handlers called by a tick have in common: they keep the
    identity of every player, where it stands and is heading, its
    progress and its queue, they respect the one-way fields, and they
    have no loop of their own. *)
Definition handlerPolicy {Arena} : Policy Arena :=
  {| playerStep _ a a' :=
       id a' = id a /\ skinId a' = skinId a
       /\ currentPosition a' = currentPosition a
       /\ nextTileProgress a' = nextTileProgress a
       /\ currentDirection a' = currentDirection a
       /\ movementQueue a' = movementQueue a
       /\ latched a a';
     eventOk _ := True;
     arenaStep := fun _ _ => True;
     readsStep := le;
     abortOk e := e <> OutOfFuel |}.

(** What every method keeps: the identity of the players and the one-way
    fields. *)
Definition publicPolicy {Arena} : Policy Arena :=
  {| playerStep _ a a' :=
       id a' = id a /\ skinId a' = skinId a /\ latched a a';
     eventOk _ := True;
     arenaStep := fun _ _ => True;
     readsStep := le;
     abortOk _ := True |}.

Section Histories.
Context {cfg : Config} {util : Util} {Arena : Type} {ops : ArenaOps Arena}.

(** [calls w w']: the world [w'] comes from [w] by calls of the
    constructor and of the public methods, on any references and whatever
    their outcomes. *)
Inductive calls (w : World Arena) : World Arena -> Prop :=
| calls_none : calls w w
| calls_newPlayer w' id0 :
    calls w w' -> calls w (snd (newPlayer id0 w'))
| calls_clientPosUpdateRequested w' fuel r d v :
    calls w w' -> calls w (snd (clientPosUpdateRequested fuel r d v w'))
| calls_loop w' fuel r now dt :
    calls w w' -> calls w (snd (loop fuel r now dt w'))
| calls_die w' r ty sp :
    calls w w' -> calls w (snd (die r ty sp w'))
| calls_removedFromGame w' r :
    calls w w' -> calls w (snd (removedFromGame r w')).
End Histories.

(** What a tick of the player [this] may do to the other players: record
    a death where there was none, and nothing else. *)
Definition tickPolicy {Arena} (this : ref) : Policy Arena :=
  {| playerStep q a a' :=
       q <> this ->
       set_lastDeathState None a' = set_lastDeathState None a
       /\ (forall ds, lastDeathState a = Some ds ->
                      lastDeathState a' = Some ds);
     eventOk _ := True;
     arenaStep := fun _ _ => True;
     readsStep := le;
     abortOk _ := True |}.

(** ** Running computations on a focused world *)

Section Focus.
Context {cfg : Config} {util : Util} {Arena : Type} {ops : ArenaOps Arena}.
Implicit Types (w : World Arena) (r : ref) (p : Player).

Lemma run_bind {A B} (m : M Arena A) (k : A -> M Arena B) w :
  (m ≫= k) w =
  match m w with
  | (Ok a, w') => k a w'
  | (Stop e, w') => (Stop e, w')
  end.
Proof. reflexivity. Qed.

Lemma run_ret {A} (a : A) w : (mret a : M Arena A) w = (Ok a, w).
Proof. reflexivity. Qed.

Lemma put_id r p w : players w !! r = Some p -> put r p w = w.
Proof.
  intros E. unfold put, set_players. rewrite list_insert_id by exact E.
  now destruct w.
Qed.

Lemma valid_lookup r p w : players w !! r = Some p -> valid r w.
Proof. intros E. eapply lookup_lt_Some, E. Qed.

Lemma lookup_put r p w : valid r w -> players (put r p w) !! r = Some p.
Proof. intros V. cbn. now apply list_lookup_insert_eq. Qed.

Lemma lookup_put_ne r q p w :
  r <> q -> players (put r p w) !! q = players w !! q.
Proof. intros N. cbn. now apply list_lookup_insert_ne. Qed.

Lemma getPlayer_ok r p w :
  players w !! r = Some p -> getPlayer r w = (Ok p, w).
Proof. intros E. unfold getPlayer. now rewrite E. Qed.

Lemma getPlayer_put r p w :
  valid r w -> getPlayer r (put r p w) = (Ok p, put r p w).
Proof. intros V. apply getPlayer_ok, lookup_put, V. Qed.

Lemma update_put r f p w :
  valid r w -> update r f (put r p w) = (Ok tt, put r (f p) w).
Proof.
  intros V. unfold update. rewrite lookup_put by exact V.
  unfold put, set_players. cbn. now rewrite list_insert_insert_eq.
Qed.

Lemma emit_put e r p w :
  emit e (put r p w) = (Ok tt, put r p (set_log (log w ++ [e]) w)).
Proof. reflexivity. Qed.

Lemma callArena_put e f r p w :
  callArena e f (put r p w)
  = (Ok tt, put r p (set_arena (f (arena w)) (set_log (log w ++ [e]) w))).
Proof. reflexivity. Qed.

Lemma performance_now_put r p w :
  performance_now (put r p w)
  = (Ok (clock w (reads w)), put r p (set_reads (S (reads w)) w)).
Proof. reflexivity. Qed.

Lemma getArena_put r p w : getArena (put r p w) = (Ok (arena w), put r p w).
Proof. reflexivity. Qed.

Lemma throw_put {A} msg r p w :
  (throw msg : M Arena A) (put r p w) = (Stop (Thrown msg), put r p w).
Proof. reflexivity. Qed.
End Focus.

(** Runs the primitive steps at the head of a computation on a world of
    the form [put r p w]; [V] proves that [r] is valid. *)
Ltac mrun V :=
  repeat first
    [ rewrite run_bind
    | rewrite getPlayer_put by exact V
    | rewrite update_put by exact V
    | rewrite emit_put
    | rewrite callArena_put
    | rewrite performance_now_put
    | rewrite getArena_put
    | rewrite throw_put
    | rewrite run_ret
    | progress cbv beta iota ].

(** ** Skin disambiguation *)

Section Skins.
Context {cfg : Config} {util : Util} {Arena : Type} {ops : ArenaOps Arena}.
Implicit Types (w : World Arena) (this other : ref) (me o : Player).

Lemma skinIdForPlayer_reads_only w this other me o :
  players w !! this = Some me -> players w !! other = Some o ->
  exists v, skinIdForPlayer this other w = (Ok v, w).
Proof.
  intros Hme Ho. unfold skinIdForPlayer.
  rewrite run_bind, (getPlayer_ok _ _ _ Hme).
  rewrite run_bind, (getPlayer_ok _ _ _ Ho).
  destruct (_ || _); rewrite run_ret; eauto.
Qed.

(** Different skins, or the player itself: the own skin id. *)
Lemma skinIdForPlayer_own w this other me o :
  players w !! this = Some me -> players w !! other = Some o ->
  skinId me <> skinId o \/ other = this ->
  skinIdForPlayer this other w = (Ok (skinId me), w).
Proof.
  intros Hme Ho D. unfold skinIdForPlayer.
  rewrite run_bind, (getPlayer_ok _ _ _ Hme).
  rewrite run_bind, (getPlayer_ok _ _ _ Ho).
  cbv beta iota.
  replace (negb (skinId me =? skinId o) || bool_decide (other = this))
    with true; [reflexivity|].
  symmetry. apply orb_true_iff. destruct D as [D | D].
  - left. apply negb_true_iff, Z.eqb_neq, D.
  - right. now apply bool_decide_eq_true.
Qed.

(** The result is a skin id, for non-negative player ids and at least two
    skins. *)
Lemma skinIdForPlayer_range w this other me o v :
  players w !! this = Some me -> players w !! other = Some o ->
  2 <= SKINS_COUNT -> 0 <= id me ->
  0 <= skinId me < SKINS_COUNT -> 0 <= skinId o < SKINS_COUNT ->
  skinIdForPlayer this other w = (Ok v, w) ->
  0 <= v < SKINS_COUNT.
Proof.
  intros Hme Ho HN Hid Hs Hso. unfold skinIdForPlayer.
  rewrite run_bind, (getPlayer_ok _ _ _ Hme).
  rewrite run_bind, (getPlayer_ok _ _ _ Ho).
  cbv beta iota.
  assert (R : 0 <= Z.rem (id me) (SKINS_COUNT - 1) < SKINS_COUNT - 1)
    by (apply Z.rem_bound_pos; lia).
  destruct (_ || _); [|destruct (_ >=? _) eqn:G];
    rewrite run_ret; intros [= <-]; lia.
Qed.

(** C1, the defect: on a skin collision between two different players
    the substitute id is the other player's skin id whenever the
    remainder of the own id is one below it; the shift skips
    [skinId - 1] and not [skinId]. *)
Theorem skinIdForPlayer_returns_other_skin w this other me o :
  players w !! this = Some me -> players w !! other = Some o ->
  other <> this -> skinId me = skinId o ->
  Z.rem (id me) (SKINS_COUNT - 1) = skinId o - 1 ->
  skinIdForPlayer this other w = (Ok (skinId o), w).
Proof.
  intros Hme Ho D S R. unfold skinIdForPlayer.
  rewrite run_bind, (getPlayer_ok _ _ _ Hme).
  rewrite run_bind, (getPlayer_ok _ _ _ Ho).
  cbv beta iota.
  rewrite S, Z.eqb_refl, R. cbn [negb orb].
  rewrite bool_decide_eq_false_2 by exact D.
  replace (skinId o - 1 >=? skinId o - 1) with true
    by (symmetry; apply Z.geb_le; lia).
  rewrite run_ret. do 2 f_equal. lia.
Qed.
End Skins.

(** Two players as the constructor makes them, with ids 1 and 2 and 13
    skins: the first is shown to the second in the second's own skin. *)
Lemma skinIdForPlayer_returns_other_skin_witness :
  skinIdForPlayer (cfg := sampleConfig) 0%nat 1%nat
    (worldOf [initialPlayer 1; initialPlayer 2] (stopped 0))
  = (Ok (skinId (initialPlayer 2)),
     worldOf [initialPlayer 1; initialPlayer 2] (stopped 0)).
Proof.
  apply (skinIdForPlayer_returns_other_skin (cfg := sampleConfig)
           _ 0%nat 1%nat
           (initialPlayer 1) (initialPlayer 2));
    [reflexivity | reflexivity | discriminate | reflexivity | reflexivity].
Defined.

(** ** Validation of a queued turn *)

(** C2, as stated, fails: a player heading right at (20,20) is allowed to
    turn up at (25,20), a position with another x. *)
Lemma checkNextMoveValidity_accepts_other_x :
  horizontal (currentDirection (heading Right 1))
  /\ vertical Up
  /\ checkNextMoveValidity (heading Right 1) (Vec2.mk 25 20) Up = true
  /\ Vec2.x (Vec2.mk 25 20) <> Vec2.x (currentPosition (heading Right 1)).
Proof.
  split; [now right|]. split; [now left|]. split; [reflexivity|discriminate].
Qed.

(** C2, amended: a turn from a horizontal heading to a vertical one is
    accepted exactly when the desired y equals the current y, a turn from
    a vertical heading to a horizontal one exactly when the desired x
    equals the current x, and a request on the axis of the current
    heading, the same direction included, is rejected. *)
Theorem checkNextMoveValidity_turns (p : Player) (dp : Vec2)
    (nd : Direction) :
  (horizontal (currentDirection p) -> vertical nd ->
   (checkNextMoveValidity p dp nd = true
    <-> Vec2.y dp = Vec2.y (currentPosition p)))
  /\ (vertical (currentDirection p) -> horizontal nd ->
      (checkNextMoveValidity p dp nd = true
       <-> Vec2.x dp = Vec2.x (currentPosition p)))
  /\ ((horizontal (currentDirection p) /\ horizontal nd)
      \/ (vertical (currentDirection p) /\ vertical nd)
      \/ currentDirection p = nd ->
      checkNextMoveValidity p dp nd = false).
Proof.
  unfold checkNextMoveValidity, horizontal, vertical, same.
  split; [|split].
  - intros [-> | ->] [-> | ->]; cbn;
      destruct (Z.eqb_spec (Vec2.y dp) (Vec2.y (currentPosition p)));
      cbn; split; intros; congruence.
  - intros [-> | ->] [-> | ->]; cbn;
      destruct (Z.eqb_spec (Vec2.x dp) (Vec2.x (currentPosition p)));
      cbn; split; intros; congruence.
  - intros [[[-> | ->] [-> | ->]] | [[[-> | ->] [-> | ->]] | <-]];
      try reflexivity.
    destruct (currentDirection p); reflexivity.
Qed.

(** Heading right at (20,20): turning up is accepted at (25,20) because the
    y is the current one. *)
Lemma checkNextMoveValidity_turns_witness :
  checkNextMoveValidity (heading Right 1) (Vec2.mk 25 20) Up = true.
Proof.
  apply (proj1 (checkNextMoveValidity_turns (heading Right 1)
                  (Vec2.mk 25 20) Up)).
  - now right.
  - now left.
  - reflexivity.
Defined.

(** ** Death, tile release and their latches *)

Section Latches.
Context {cfg : Config} {util : Util} {Arena : Type} {ops : ArenaOps Arena}.
Implicit Types (w : World Arena) (r : ref) (p : Player).

Lemma die_dead r p w ty sp :
  valid r w -> dead p = true ->
  die r ty sp (put r p w) = (Ok tt, put r p w).
Proof. intros V D. unfold die. mrun V. now rewrite D. Qed.

Lemma die_alive r p w ty sp :
  valid r w -> dead p = false ->
  die r ty sp (put r p w)
  = (Ok tt,
     put r
       (set_lastDeathState
          (Some {| dieTime := clock w (reads w); type := ty |}) p)
       (set_log (log w ++ [broadcastPlayerDeath r sp])
          (set_reads (S (reads w)) w))).
Proof. intros V D. unfold die. mrun V. rewrite D. now mrun V. Qed.

Lemma clearAllMyTiles_cleared r p w :
  valid r w -> allMyTilesCleared p = true ->
  clearAllMyTiles r (put r p w) = (Ok tt, put r p w).
Proof. intros V C. unfold clearAllMyTiles. mrun V. now rewrite C. Qed.

Lemma clearAllMyTiles_first r p w :
  valid r w -> allMyTilesCleared p = false ->
  clearAllMyTiles r (put r p w)
  = (Ok tt,
     put r (set_allMyTilesCleared true p)
       (set_arena (onClearAllPlayerTiles (id p) (arena w))
          (set_log (log w ++ [clearAllPlayerTiles (id p)]) w))).
Proof.
  intros V C. unfold clearAllMyTiles. mrun V. rewrite C. now mrun V.
Qed.

Lemma permanentlyDie_latched r p w :
  valid r w -> permanentlyDead p = true ->
  permanentlyDie r (put r p w) = (Ok tt, put r p w).
Proof. intros V L. unfold permanentlyDie. mrun V. now rewrite L. Qed.

(** The transition itself, for a player that is marked dead. *)
Lemma permanentlyDie_first r p w ds :
  valid r w -> permanentlyDead p = false -> lastDeathState p = Some ds ->
  exists p' w',
    permanentlyDie r (put r p w) = (Ok tt, put r p' w')
    /\ permanentlyDead p' = true
    /\ permanentlyDieTime p' = clock w (reads w)
    /\ lastDeathState p' = Some ds
    /\ allMyTilesCleared p' = true
    /\ players w' = players w /\ clock w' = clock w
    /\ reads w' = S (reads w)
    /\ log w'
       = log w
         ++ (if allMyTilesCleared p then []
             else [clearAllPlayerTiles (id p)])
         ++ [sendGameOver r (type ds)].
Proof.
  intros V L D. unfold permanentlyDie. mrun V. rewrite L. mrun V.
  destruct (allMyTilesCleared p) eqn:C.
  - rewrite clearAllMyTiles_cleared by (exact V || exact C).
    mrun V. cbn. rewrite D. mrun V.
    eexists _, _. split; [reflexivity|]. cbn. now rewrite C.
  - rewrite clearAllMyTiles_first by (exact V || exact C).
    mrun V. cbn. rewrite D. mrun V.
    eexists _, _. split; [reflexivity|]. cbn. now rewrite <- app_assoc.
Qed.

(** However the transition ends, it leaves the latch set. *)
Lemma permanentlyDie_sets_latch r p w :
  valid r w ->
  exists o p' w',
    permanentlyDie r (put r p w) = (o, put r p' w')
    /\ permanentlyDead p' = true /\ players w' = players w.
Proof.
  intros V. unfold permanentlyDie. mrun V.
  destruct (permanentlyDead p) eqn:L.
  { mrun V. now eexists _, _, _. }
  mrun V.
  destruct (allMyTilesCleared p) eqn:C.
  - rewrite clearAllMyTiles_cleared by (exact V || exact C).
    mrun V. cbn. destruct (lastDeathState p); mrun V; now eexists _, _, _.
  - rewrite clearAllMyTiles_first by (exact V || exact C).
    mrun V. cbn. destruct (lastDeathState p); mrun V; now eexists _, _, _.
Qed.

(** C9: [die] on a player that is already marked dead, a second release
    of the tiles and a second permanent-death transition return without
    changing the world: no field, no clock reading, no call on the arena,
    the game or the connection. The second half states the same for a
    call that follows a first call directly. *)
Theorem reentry_is_noop w r p (ty ty' : DeathType) (sp sp' : bool) :
  players w !! r = Some p ->
  (dead p = true -> die r ty sp w = (Ok tt, w))
  /\ (allMyTilesCleared p = true -> clearAllMyTiles r w = (Ok tt, w))
  /\ (permanentlyDead p = true -> permanentlyDie r w = (Ok tt, w))
  /\ die r ty' sp' (snd (die r ty sp w)) = (Ok tt, snd (die r ty sp w))
  /\ clearAllMyTiles r (snd (clearAllMyTiles r w))
     = (Ok tt, snd (clearAllMyTiles r w))
  /\ removedFromGame r (snd (removedFromGame r w))
     = (Ok tt, snd (removedFromGame r w))
  /\ permanentlyDie r (snd (permanentlyDie r w))
     = (Ok tt, snd (permanentlyDie r w)).
Proof.
  intros E. pose proof (valid_lookup _ _ _ E) as V.
  rewrite <- (put_id _ _ _ E).
  assert (T : clearAllMyTiles r (snd (clearAllMyTiles r (put r p w)))
              = (Ok tt, snd (clearAllMyTiles r (put r p w)))).
  { destruct (allMyTilesCleared p) eqn:C.
    - rewrite clearAllMyTiles_cleared by assumption. cbn [snd].
      now apply clearAllMyTiles_cleared.
    - rewrite clearAllMyTiles_first by assumption. cbn [snd].
      now apply clearAllMyTiles_cleared. }
  repeat split.
  - now apply die_dead.
  - now apply clearAllMyTiles_cleared.
  - now apply permanentlyDie_latched.
  - destruct (dead p) eqn:D.
    + rewrite die_dead by assumption. cbn [snd]. now apply die_dead.
    + rewrite die_alive by assumption. cbn [snd]. now apply die_dead.
  - exact T.
  - exact T.
  - destruct (permanentlyDie_sets_latch r p w V) as (o & p' & w' & -> & L & P).
    cbn [snd]. apply permanentlyDie_latched; [|exact L].
    unfold valid. now rewrite P.
Qed.
End Latches.

(** A player marked dead by its own trail: a later [die] changes nothing. *)
Lemma reentry_is_noop_witness :
  die 0%nat ByPlayer false (worldOf [markedDead 0 Self 1] (stopped 5))
  = (Ok tt, worldOf [markedDead 0 Self 1] (stopped 5)).
Proof.
  apply (proj1 (reentry_is_noop (ops := sampleArena)
                  (worldOf [markedDead 0 Self 1] (stopped 5)) 0%nat
                  (markedDead 0 Self 1) ByPlayer ByPlayer false false
                  eq_refl)).
  reflexivity.
Defined.

(** ** The movement queue *)

Section Queue.
Context {cfg : Config} {util : Util} {Arena : Type} {ops : ArenaOps Arena}.
Implicit Types (w : World Arena) (r : ref) (p : Player).

Lemma drainMovementQueue_S fuel r :
  drainMovementQueue (Arena := Arena) (S fuel) r
  = (p ← getPlayer r;
     match movementQueue p with
     | [] => mret tt
     | firstItem :: _ =>
         let valid :=
           checkNextMoveValidity p (desiredPosition firstItem)
             (direction firstItem) in
         if negb valid then
           update r (fun p => set_movementQueue (tail (movementQueue p)) p);;
           drainMovementQueue fuel r
         else
           update r (fun p => set_movementQueue (tail (movementQueue p)) p);;
           update r (set_currentPosition (desiredPosition firstItem));;
           p ← getPlayer r;
           (if isGeneratingTrail p then
              update r
                (fun p =>
                   set_trailVertices
                     (trailVertices p ++ [desiredPosition firstItem]) p)
            else mret tt);;
           update r (set_currentDirection (direction firstItem));;
           emit (broadcastPlayerState r);;
           drainMovementQueue fuel r
     end).
Proof. reflexivity. Qed.

(** A round that finds an item removes exactly that item, accepted or
    not, and goes on with the rest of the queue. *)
Lemma drainMovementQueue_round fuel r p w item rest :
  valid r w -> movementQueue p = item :: rest ->
  exists p' w',
    drainMovementQueue (S fuel) r (put r p w)
    = drainMovementQueue fuel r (put r p' w')
    /\ movementQueue p' = rest /\ players w' = players w.
Proof.
  intros V Q. rewrite drainMovementQueue_S. mrun V. rewrite Q.
  cbv zeta.
  destruct (checkNextMoveValidity p (desiredPosition item)
              (direction item)); cbn [negb]; mrun V.
  - destruct (isGeneratingTrail _); mrun V;
      eexists _, _; (split; [reflexivity|]); cbn; now rewrite Q.
  - eexists _, _. split; [reflexivity|]. cbn. now rewrite Q.
Qed.

Lemma drainMovementQueue_empties r n :
  forall fuel p w,
    valid r w -> length (movementQueue p) = n -> (n < fuel)%nat ->
    exists p' w',
      drainMovementQueue fuel r (put r p w) = (Ok tt, put r p' w')
      /\ movementQueue p' = [] /\ players w' = players w.
Proof.
  induction n as [|n IH]; intros fuel p w V L F.
  - destruct fuel as [|fuel]; [lia|].
    rewrite drainMovementQueue_S. mrun V.
    destruct (movementQueue p) eqn:Q; [|discriminate].
    mrun V. now eexists _, _.
  - destruct fuel as [|fuel]; [lia|].
    destruct (movementQueue p) as [|item rest] eqn:Q; [discriminate|].
    destruct (drainMovementQueue_round fuel r p w item rest V Q)
      as (p1 & w1 & -> & Q1 & P1).
    destruct (IH fuel p1 w1) as (p2 & w2 & E & Q2 & P2).
    + unfold valid. now rewrite P1.
    + rewrite Q1. cbn in L. lia.
    + lia.
    + exists p2, w2. repeat split; [exact E|exact Q2|congruence].
Qed.

(** C10: with fuel for one round per queued item and one more round to
    find the queue empty, [clientPosUpdateRequested] returns normally and
    leaves the movement queue of the player empty; and each round that
    finds an item continues with the queue shortened by exactly that
    item. *)
Theorem clientPosUpdateRequested_empties_queue w r p d v fuel :
  players w !! r = Some p ->
  (length (movementQueue p) + 1 < fuel)%nat ->
  (exists w' p',
     clientPosUpdateRequested fuel r d v w = (Ok tt, w')
     /\ players w' !! r = Some p' /\ movementQueue p' = [])
  /\ (forall item rest n,
        movementQueue p = item :: rest ->
        exists w1 p1,
          drainMovementQueue (S n) r w = drainMovementQueue n r w1
          /\ players w1 !! r = Some p1 /\ movementQueue p1 = rest).
Proof.
  intros E F. pose proof (valid_lookup _ _ _ E) as V.
  rewrite <- (put_id _ _ _ E). split.
  - unfold clientPosUpdateRequested. mrun V.
    destruct (drainMovementQueue_empties r (length (movementQueue p) + 1)
                fuel
                (set_movementQueue
                   (movementQueue p
                      ++ [{| direction := d; desiredPosition := v |}]) p)
                w V) as (p' & w' & -> & Q & P); [|exact F|].
    + cbn. rewrite length_app. cbn. lia.
    + exists (put r p' w'), p'. repeat split; [|exact Q].
      apply lookup_put. unfold valid. now rewrite P.
  - intros item rest n Q.
    destruct (drainMovementQueue_round n r p w item rest V Q)
      as (p1 & w1 & -> & Q1 & P1).
    exists (put r p1 w1), p1. repeat split; [|exact Q1].
    apply lookup_put. unfold valid. now rewrite P1.
Qed.
End Queue.

(** An empty queue and fuel for two rounds. *)
Lemma clientPosUpdateRequested_empties_queue_witness :
  exists w' p',
    clientPosUpdateRequested 2 0%nat Left
      (Vec2.mk 20 20) (worldOf [initialPlayer 1] (stopped 0)) = (Ok tt, w')
    /\ players w' !! 0%nat = Some p' /\ movementQueue p' = [].
Proof.
  apply (proj1 (clientPosUpdateRequested_empties_queue
                  (worldOf [initialPlayer 1] (stopped 0)) 0%nat
                  (initialPlayer 1) Left (Vec2.mk 20 20) 2 eq_refl
                  ltac:(cbn; lia))).
Defined.

(** ** Viewport edge chunks *)

Section EdgeChunks.
Context {cfg : Config} {util : Util} {Arena : Type} {ops : ArenaOps Arena}.
Implicit Types (w : World Arena) (r : ref) (p : Player).

(** The local variable [chunk] after the four tests, as a list of at most
    one rectangle to send, and the two coordinates after them. *)
Lemma sendRequiredEdgeChunks_run w r p :
  players w !! r = Some p ->
  let cs := VIEWPORT_EDGE_CHUNK_SIZE in
  let vs := MIN_TILES_VIEWPORT_RECT_SIZE in
  let px := Vec2.x (currentPosition p) in
  let py := Vec2.y (currentPosition p) in
  let xp := px >=? lastEdgeChunkSendX p + cs in
  let xn := px <=? (if xp then px else lastEdgeChunkSendX p) - cs in
  let yp := py >=? lastEdgeChunkSendY p + cs in
  let yn := py <=? (if yp then py else lastEdgeChunkSendY p) - cs in
  let lx := if xp || xn then px else lastEdgeChunkSendX p in
  let ly := if yp || yn then py else lastEdgeChunkSendY p in
  let sent :=
    if yn then [sendChunk r (chunkRect (lx - vs - cs) (py - vs - cs)
                               ((vs + cs) * 2) cs)]
    else if yp then [sendChunk r (chunkRect (lx - vs - cs) (py + vs)
                                    ((vs + cs) * 2) cs)]
    else if xn then [sendChunk r (chunkRect (px - vs - cs)
                                    (lastEdgeChunkSendY p - vs - cs)
                                    cs ((vs + cs) * 2))]
    else if xp then [sendChunk r (chunkRect (px + vs)
                                    (lastEdgeChunkSendY p - vs - cs)
                                    cs ((vs + cs) * 2))]
    else [] in
  sendRequiredEdgeChunks r w
  = (Ok tt,
     put r (set_lastEdgeChunkSendY ly (set_lastEdgeChunkSendX lx p))
       (set_log (log w ++ sent) w)).
Proof.
  intros E cs vs px py xp xn yp yn lx ly sent.
  pose proof (valid_lookup _ _ _ E) as V.
  rewrite <- (put_id _ _ _ E) at 1.
  unfold sendRequiredEdgeChunks. mrun V.
  fold cs vs px py xp.
  destruct xp eqn:Exp; mrun V; cbn [lastEdgeChunkSendX
    lastEdgeChunkSendY currentPosition set_lastEdgeChunkSendX
    set_lastEdgeChunkSendY]; fold cs vs px py xn;
  destruct xn eqn:Exn; mrun V; cbn [lastEdgeChunkSendX
    lastEdgeChunkSendY currentPosition set_lastEdgeChunkSendX
    set_lastEdgeChunkSendY]; fold cs vs px py yp;
  destruct yp eqn:Eyp; mrun V; cbn [lastEdgeChunkSendX
    lastEdgeChunkSendY currentPosition set_lastEdgeChunkSendX
    set_lastEdgeChunkSendY]; fold cs vs px py yn;
  destruct yn eqn:Eyn; mrun V;
  subst sent lx ly; cbn [orb chunk_x chunk_y chunk_w chunk_h];
  unfold chunkRect; apply (f_equal (pair (Ok tt))); f_equal;
  rewrite ?app_nil_r; try reflexivity;
  try (destruct p; reflexivity); destruct w; reflexivity.
Qed.

(** C8: one run of [#sendRequiredEdgeChunks] changes nothing but the two
    last-sent coordinates and sends at most one rectangle. The four
    thresholds are tested in the order +X, -X, +Y, -Y, each against the
    last-sent coordinate as the tests before it left it; the last-sent
    coordinate of an axis becomes the current coordinate as soon as one
    of its two tests succeeds, and the rectangle sent is that of the last
    test that succeeded. With a positive chunk size the two tests of an
    axis exclude each other, so each is a test against the coordinate
    stored before the call. *)
Theorem sendRequiredEdgeChunks_sends_last w r p :
  players w !! r = Some p ->
  let cs := VIEWPORT_EDGE_CHUNK_SIZE in
  let vs := MIN_TILES_VIEWPORT_RECT_SIZE in
  let px := Vec2.x (currentPosition p) in
  let py := Vec2.y (currentPosition p) in
  let xp := px >=? lastEdgeChunkSendX p + cs in
  let xn := px <=? (if xp then px else lastEdgeChunkSendX p) - cs in
  let yp := py >=? lastEdgeChunkSendY p + cs in
  let yn := py <=? (if yp then py else lastEdgeChunkSendY p) - cs in
  let lx := if xp || xn then px else lastEdgeChunkSendX p in
  let ly := if yp || yn then py else lastEdgeChunkSendY p in
  let sent :=
    if yn then [sendChunk r (chunkRect (lx - vs - cs) (py - vs - cs)
                               ((vs + cs) * 2) cs)]
    else if yp then [sendChunk r (chunkRect (lx - vs - cs) (py + vs)
                                    ((vs + cs) * 2) cs)]
    else if xn then [sendChunk r (chunkRect (px - vs - cs)
                                    (lastEdgeChunkSendY p - vs - cs)
                                    cs ((vs + cs) * 2))]
    else if xp then [sendChunk r (chunkRect (px + vs)
                                    (lastEdgeChunkSendY p - vs - cs)
                                    cs ((vs + cs) * 2))]
    else [] in
  sendRequiredEdgeChunks r w
  = (Ok tt,
     put r (set_lastEdgeChunkSendY ly (set_lastEdgeChunkSendX lx p))
       (set_log (log w ++ sent) w))
  /\ (length sent <= 1)%nat
  /\ (0 < cs ->
      xn = (px <=? lastEdgeChunkSendX p - cs)
      /\ yn = (py <=? lastEdgeChunkSendY p - cs)
      /\ xp && xn = false /\ yp && yn = false).
Proof.
  intros E cs vs px py xp xn yp yn lx ly sent.
  split; [|split].
  - exact (sendRequiredEdgeChunks_run w r p E).
  - subst sent. destruct yn, yp, xn, xp; cbn; lia.
  - intros Hcs. subst xn yn xp yp.
    destruct (Z.geb_spec px (lastEdgeChunkSendX p + cs));
      destruct (Z.geb_spec py (lastEdgeChunkSendY p + cs));
      repeat split; cbn [andb]; try reflexivity; lia.
Qed.
End EdgeChunks.

(** The player stands five tiles right of and below the place of the last
    chunks: only the rectangle below the viewport is sent. *)
Lemma sendRequiredEdgeChunks_sends_last_witness :
  newEvents (worldOf [standingAt (Vec2.mk 25 25) 1] (stopped 0))
    (snd (sendRequiredEdgeChunks (cfg := sampleConfig) 0%nat
            (worldOf [standingAt (Vec2.mk 25 25) 1] (stopped 0))))
  = [sendChunk 0%nat (chunkRect 0 45 50 5)].
Proof.
  rewrite (proj1 (sendRequiredEdgeChunks_sends_last (cfg := sampleConfig)
                    (worldOf [standingAt (Vec2.mk 25 25) 1] (stopped 0))
                    0%nat (standingAt (Vec2.mk 25 25) 1) eq_refl)).
  reflexivity.
Defined.

(** ** Closing a trail *)

Section Capture.
Context {cfg : Config} {util : Util} {Arena : Type} {ops : ArenaOps Arena}.
Implicit Types (w : World Arena) (r : ref) (p : Player).

Lemma isGeneratingTrail_app p v :
  isGeneratingTrail (set_trailVertices (trailVertices p ++ [v]) p) = true.
Proof.
  unfold isGeneratingTrail. cbn [trailVertices set_trailVertices].
  now destruct (trailVertices p).
Qed.

(** C6: a player that is generating a trail and stands on a tile of its
    own, with a cached tile value that is not its id (so it is while a
    trail is generated, see [reachable_tileCachesOk]) and with its tiles
    still in the arena (the method asserts it):
    [#updateCurrentTile] returns normally, the calls it makes are one
    [fillPlayerTrail] with the trail closed by the current position,
    one [updateCapturedArea] and one [broadcastPlayerTrail], in this
    order, and afterwards the trail is empty. *)
Theorem updateCurrentTile_closes_trail w r p :
  players w !! r = Some p ->
  isGeneratingTrail p = true ->
  getTileValue (arena w) (currentPosition p) = id p ->
  currentTileType p <> id p ->
  allMyTilesCleared p = false ->
  let closed := trailVertices p ++ [currentPosition p] in
  updateCurrentTile r w
  = (Ok tt,
     put r (set_currentTileType (id p) (set_trailVertices [] p))
       (set_arena
          (onUpdateCapturedArea (id p)
             (onFillPlayerTrail closed (id p) (arena w)))
          (set_log
             (log w ++ [fillPlayerTrail closed (id p);
                        updateCapturedArea (id p);
                        broadcastPlayerTrail r]) w))).
Proof.
  intros E G T C A closed. pose proof (valid_lookup _ _ _ E) as V.
  rewrite <- (put_id _ _ _ E) at 1.
  unfold updateCurrentTile. mrun V. cbn [arena set_arena].
  rewrite T. apply Z.eqb_neq in C. rewrite C. cbn [negb].
  rewrite Z.eqb_refl, G. cbn [negb andb]. mrun V.
  rewrite Z.eqb_refl, G. cbn [andb]. mrun V.
  cbn [allMyTilesCleared set_trailVertices]. rewrite A. mrun V.
  cbn. unfold put, set_players, set_arena, set_log. cbn.
  rewrite <- !app_assoc. reflexivity.
Qed.
End Capture.

(** The trail (5,5), (5,10), (10,10) is closed at (10,5): the arena is
    asked once to fill the four points, and the trail is empty. *)
Lemma updateCurrentTile_closes_trail_witness :
  updateCurrentTile (ops := sampleArena) 0%nat
    (worldWith
       [trailing [Vec2.mk 5 5; Vec2.mk 5 10; Vec2.mk 10 10] (Vec2.mk 10 5) 1]
       [(Vec2.mk 10 5, 1)] (stopped 0))
  = (Ok tt,
     {| players := [set_currentTileType 1 (standingAt (Vec2.mk 10 5) 1)];
        arena :=
          arenaWith
            [(Vec2.mk 5 5, 1); (Vec2.mk 5 10, 1); (Vec2.mk 10 10, 1);
             (Vec2.mk 10 5, 1); (Vec2.mk 10 5, 1)];
        log :=
          [fillPlayerTrail
             [Vec2.mk 5 5; Vec2.mk 5 10; Vec2.mk 10 10; Vec2.mk 10 5] 1;
           updateCapturedArea 1; broadcastPlayerTrail 0%nat];
        clock := stopped 0; reads := 0 |}).
Proof.
  rewrite (updateCurrentTile_closes_trail (ops := sampleArena)
             (worldWith
                [trailing [Vec2.mk 5 5; Vec2.mk 5 10; Vec2.mk 10 10]
                   (Vec2.mk 10 5) 1]
                [(Vec2.mk 10 5, 1)] (stopped 0))
             0%nat
             (trailing [Vec2.mk 5 5; Vec2.mk 5 10; Vec2.mk 10 10]
                (Vec2.mk 10 5) 1)
             eq_refl eq_refl eq_refl ltac:(discriminate) eq_refl).
  reflexivity.
Defined.

(** ** The death timers *)

Section Timers.
Context {cfg : Config} {util : Util} {Arena : Type} {ops : ArenaOps Arena}.
Implicit Types (w : World Arena) (r : ref) (p : Player).


Lemma Qgtb_false (a b : Q) : (a <= b)%Q -> Qgtb a b = false.
Proof.
  intros L. unfold Qgtb. apply Qle_bool_iff in L. now rewrite L.
Qed.

Lemma newEvents_app w w' l : log w' = log w ++ l -> newEvents w w' = l.
Proof. intros E. unfold newEvents. rewrite E. apply drop_app_length. Qed.


End Timers.




(** ** Collisions of a move *)

Section Moves.
Context {cfg : Config} {util : Util} {Arena : Type} {ops : ArenaOps Arena}.
Implicit Types (w : World Arena) (r q x : ref) (p a : Player).


Lemma sameGeom_trans w1 w2 w3 :
  sameGeom w1 w2 -> sameGeom w2 w3 -> sameGeom w1 w3.
Proof. unfold sameGeom. congruence. Qed.

Lemma sameGeom_length w w' :
  sameGeom w w' -> length (players w') = length (players w).
Proof.
  intros G. apply (f_equal length) in G. now rewrite !length_fmap in G.
Qed.

Lemma sameGeom_valid w w' r : sameGeom w w' -> valid r w -> valid r w'.
Proof. intros G V. unfold valid. now rewrite (sameGeom_length _ _ G). Qed.

Lemma sameGeom_lookup w w' q a :
  sameGeom w w' -> players w !! q = Some a ->
  exists a', players w' !! q = Some a' /\ geom a' = geom a.
Proof.
  intros G E. apply (list_lookup_fmap_Some_2 geom) in E.
  rewrite G in E. apply list_lookup_fmap_Some_1 in E.
  destruct E as (a' & Ea & E). eauto.
Qed.

(** Replacing a player by one with the same trail, bounds and position. *)
Lemma sameGeom_put w w0 q a a' :
  players w !! q = Some a -> players w0 = players w -> geom a' = geom a ->
  sameGeom w (put q a' w0).
Proof.
  intros E P G. unfold sameGeom, put. cbn. rewrite P, list_fmap_insert, G.
  symmetry. apply list_insert_id. now apply list_lookup_fmap_Some_2.
Qed.

Lemma about_app q l1 l2 : about q (l1 ++ l2) = about q l1 ++ about q l2.
Proof. apply List.filter_app. Qed.

Lemma pointIsInTrail_total a pos incl :
  exists b, pointIsInTrail a pos incl = Ok b.
Proof.
  unfold pointIsInTrail, isGeneratingTrail.
  destruct (trailVertices a) as [|v vs] eqn:T.
  - cbn. destruct incl; eauto.
  - cbn [length Nat.ltb Nat.leb]. destruct (checkSegments _ _); eauto.
    destruct incl; eauto.
    destruct (last_is_Some (v :: vs)) as [_ L].
    destruct L as [l ->]; [discriminate|].
    destruct (checkTrailSegment _ _ _); eauto.
Qed.

(** Without a trail the test is a comparison with the player's position,
    and it is skipped when the last segment is left out. *)
Lemma pointIsInTrail_without_trail a pos incl :
  isGeneratingTrail a = false ->
  pointIsInTrail a pos incl
  = Ok (incl && ((Vec2.x pos =? Vec2.x (currentPosition a))
                 && (Vec2.y pos =? Vec2.y (currentPosition a)))).
Proof.
  intros G. unfold pointIsInTrail. rewrite G. now destruct incl.
Qed.

Lemma pointIsInTrail_hitOn a pos incl :
  pointIsInTrail a pos incl = Ok (hitOn a pos incl).
Proof.
  unfold hitOn. destruct (pointIsInTrail_total a pos incl) as [b ->].
  reflexivity.
Qed.

Lemma hitOn_geom a a' pos incl :
  geom a' = geom a -> hitOn a' pos incl = hitOn a pos incl.
Proof.
  unfold geom. intros [= T _ P _ _].
  unfold hitOn, pointIsInTrail, isGeneratingTrail. now rewrite T, P.
Qed.

(** [die] on any world in which the reference denotes a player. *)
Lemma die_run q a w ty sp :
  players w !! q = Some a ->
  die q ty sp w
  = (Ok tt,
     if dead a then w
     else put q
            (set_lastDeathState
               (Some {| dieTime := clock w (reads w); type := ty |}) a)
            (set_log (log w ++ [broadcastPlayerDeath q sp])
               (set_reads (S (reads w)) w))).
Proof.
  intros E. pose proof (valid_lookup _ _ _ E) as V.
  rewrite <- (put_id _ _ _ E) at 1.
  destruct (dead a) eqn:D.
  - rewrite die_dead by assumption. now rewrite put_id.
  - now rewrite die_alive by assumption.
Qed.

(** One round of the loop over the overlapping players. *)
Lemma checkHit_step r pos x w me ax :
  players w !! r = Some me -> currentPosition me = pos ->
  players w !! x = Some ax ->
  let b := hitOn ax pos (negb (bool_decide (x = r))) in
  exists w1 evs1 a1,
    checkHit r x w = (Ok tt, w1)
    /\ sameGeom w w1 /\ log w1 = log w ++ evs1
    /\ arena w1 = arena w /\ clock w1 = clock w
    /\ players w1 !! x = Some a1 /\ geom a1 = geom ax
    /\ (forall q, q <> x -> players w1 !! q = players w !! q)
    /\ (forall q, q <> x -> about q evs1 = [])
    /\ about x evs1 = (if b then struckEvents ax x r else [])
    /\ (b && negb (dead ax) = true ->
        exists t, lastDeathState a1 = struckState t x r)
    /\ (b && negb (dead ax) = false -> a1 = ax).
Proof.
  intros Er Ep Ex b. unfold checkHit.
  rewrite run_bind, (getPlayer_ok _ _ _ Er).
  rewrite run_bind, (getPlayer_ok _ _ _ Ex).
  cbv beta iota. rewrite run_bind. unfold liftOutcome at 1.
  rewrite Ep, pointIsInTrail_hitOn. fold b. cbv beta iota.
  destruct b eqn:B.
  - rewrite run_bind, (die_run _ _ _ _ _ Ex).
    unfold struckEvents, struckState.
    destruct (dead ax) eqn:D; cbv beta iota.
    + exists (set_log (log w ++ [broadcastHitLineAnimation x r]) w),
        [broadcastHitLineAnimation x r], ax.
      repeat split; try assumption; try reflexivity.
      * intros q N. unfold about. cbn. rewrite bool_decide_eq_false_2; [easy|].
        congruence.
      * unfold about. cbn. now rewrite bool_decide_eq_true_2.
      * discriminate.
    + pose proof (valid_lookup _ _ _ Ex) as V.
      rewrite emit_put.
      eexists _, [broadcastPlayerDeath x (bool_decide (x = r));
                  broadcastHitLineAnimation x r], _.
      split; [reflexivity|].
      split.
      { apply (sameGeom_put w _ x ax); [exact Ex|reflexivity|reflexivity]. }
      split; [cbn; now rewrite <- app_assoc|].
      split; [reflexivity|]. split; [reflexivity|].
      split; [now apply lookup_put|].
      split; [reflexivity|].
      split; [intros q N; now rewrite lookup_put_ne by congruence|].
      split.
      { intros q N. unfold about. cbn.
        rewrite !bool_decide_eq_false_2; [easy|congruence..]. }
      split.
      { unfold about. cbn. now rewrite !bool_decide_eq_true_2 by reflexivity. }
      split; [intros _; eexists; reflexivity|discriminate].
  - rewrite run_ret. exists w, [], ax.
    repeat split; try assumption; try reflexivity.
    + now rewrite app_nil_r.
    + discriminate.
Qed.
(** The whole loop over a duplicate-free list of players. *)
Lemma forEach_checkHit r pos l :
  forall w,
    NoDup l -> (forall x, x ∈ l -> valid x w) ->
    (exists me, players w !! r = Some me /\ currentPosition me = pos) ->
    exists w' evs,
      forEach l (checkHit r) w = (Ok tt, w')
      /\ sameGeom w w' /\ log w' = log w ++ evs
      /\ arena w' = arena w /\ clock w' = clock w
      /\ forall q a,
           players w !! q = Some a ->
           let struck :=
             bool_decide (q ∈ l) && hitOn a pos (negb (bool_decide (q = r))) in
           about q evs = (if struck then struckEvents a q r else [])
           /\ exists a',
                players w' !! q = Some a' /\ geom a' = geom a
                /\ (struck && negb (dead a) = true ->
                    exists t, lastDeathState a' = struckState t q r)
                /\ (struck && negb (dead a) = false -> a' = a).
Proof.
  induction l as [|x l IH]; intros w ND VL (me & Er & Ep).
  - exists w, []. cbn [forEach]. rewrite run_ret, app_nil_r.
    repeat split; try reflexivity.
    exists a. repeat split; [assumption|discriminate].
  - apply NoDup_cons in ND as [Nx ND].
    destruct (lookup_lt_is_Some_2 (players w) x) as [ax Ex].
    { apply VL. left. }
    destruct (checkHit_step r pos x w me ax Er Ep Ex)
      as (w1 & evs1 & a1 & R1 & G1 & L1 & Ar1 & Cl1 & E1 & Ga1 & O1 & Ab1 & Ax1
          & S1 & U1).
    destruct (sameGeom_lookup _ _ _ _ G1 Er) as (me1 & Er1 & Gm1).
    destruct (IH w1 ND) as (w' & evs & R & G & L & Ar & Cl & HQ).
    { intros y Hy. eapply sameGeom_valid; [exact G1|]. apply VL. now right. }
    { exists me1. split; [exact Er1|]. unfold geom in Gm1. congruence. }
    exists w', (evs1 ++ evs).
    split. { cbn [forEach]. rewrite run_bind, R1. exact R. }
    split. { eapply sameGeom_trans; eassumption. }
    split. { rewrite L, L1. now rewrite app_assoc. }
    split; [now rewrite Ar|]. split; [now rewrite Cl|].
    intros q a Eq struck. rewrite about_app.
    destruct (decide (q = x)) as [->|N].
    + assert (a = ax) as -> by congruence.
      destruct (HQ x a1 E1) as (AbQ & a' & Ea' & Ga' & _ & Ua').
      rewrite (bool_decide_eq_false_2 _ Nx) in AbQ, Ua'. cbn in AbQ, Ua'.
      rewrite AbQ, app_nil_r, Ax1.
      assert (Hs : struck = hitOn ax pos (negb (bool_decide (x = r)))).
      { subst struck. rewrite bool_decide_eq_true_2 by left. reflexivity. }
      rewrite Hs. split; [reflexivity|].
      pose proof (Ua' eq_refl) as ->. exists a1.
      repeat split; [exact Ea'|exact Ga1|exact S1|exact U1].
    + rewrite (Ab1 q N). cbn [app].
      destruct (HQ q a) as (AbQ & a' & Ea' & Ga' & Sa' & Ua').
      { now rewrite O1. }
      assert (Hs : bool_decide (q ∈ x :: l) = bool_decide (q ∈ l)).
      { apply bool_decide_ext. rewrite elem_of_cons. tauto. }
      subst struck. rewrite Hs. split; [exact AbQ|].
      exists a'. repeat split; assumption.
Qed.
Lemma sendRequiredEdgeChunks_frame w r p :
  players w !! r = Some p ->
  exists p' sent,
    sendRequiredEdgeChunks r w
    = (Ok tt, put r p' (set_log (log w ++ sent) w))
    /\ geom p' = geom p /\ lastDeathState p' = lastDeathState p
    /\ forall q, about q sent = [].
Proof.
  intros E. eexists _, _. split; [apply (sendRequiredEdgeChunks_run w r p E)|].
  split; [reflexivity|]. split; [reflexivity|].
  intros q. repeat match goal with |- context [if ?c then _ else _] =>
                       destruct c end; reflexivity.
Qed.

Lemma getOverlappingTrailBoundsPlayers_run pos w :
  exists l,
    getOverlappingTrailBoundsPlayers pos w = (Ok l, w)
    /\ NoDup l
    /\ forall q, q ∈ l <-> exists a, players w !! q = Some a
                                     /\ pointIsInTrailBounds a pos = true.
Proof.
  eexists. split; [reflexivity|]. split.
  - apply NoDup_ListNoDup, List.NoDup_filter, NoDup_ListNoDup, NoDup_seq.
  - intros q. rewrite list_elem_of_In, List.filter_In, <- list_elem_of_In.
    rewrite elem_of_seq. split.
    + intros [_ H]. destruct (players w !! q) as [a|]; [eauto|discriminate].
    + intros (a & E & B). rewrite E. split; [|exact B].
      apply lookup_lt_Some in E. lia.
Qed.

Lemma pointIsInTrailBounds_afterMove p :
  pointIsInTrailBounds (set_trailBounds (boundsAfterMove p) p)
    (currentPosition p) = true.
Proof.
  unfold pointIsInTrailBounds, boundsAfterMove, extendBounds.
  destruct (isGeneratingTrail p); cbn;
    repeat (apply andb_true_intro; split);
    first [apply Z.geb_le | apply Z.leb_le]; lia.
Qed.

(** The whole of [#currentPositionChanged], seen from each player. *)
Lemma currentPositionChanged_run w r p :
  players w !! r = Some p ->
  let pos := currentPosition p in
  let edge := onEdge (arena w) pos in
  let p2 := afterEdgeTest edge (clock w (reads w)) p in
  exists w' evs,
    currentPositionChanged r w = (Ok tt, w')
    /\ log w' = log w ++ evs /\ arena w' = arena w /\ clock w' = clock w
    /\ sameGeom (put r p2 w) w'
    /\ (forall q a,
          q <> r -> players w !! q = Some a ->
          let struck := pointIsInTrailBounds a pos && hitOn a pos true in
          about q evs = (if struck then struckEvents a q r else [])
          /\ exists a',
               players w' !! q = Some a' /\ geom a' = geom a
               /\ (struck && negb (dead a) = true ->
                   exists t, lastDeathState a' = struckState t q r)
               /\ (struck && negb (dead a) = false -> a' = a))
    /\ (let struck := hitOn p pos false in
        about r evs
        = (if edge && negb (dead p) then [broadcastPlayerDeath r true] else [])
          ++ (if struck then struckEvents p2 r r else [])
        /\ exists p',
             players w' !! r = Some p' /\ geom p' = geom p2
             /\ (struck && negb (dead p2) = true ->
                 exists t, lastDeathState p' = struckState t r r)
             /\ (struck && negb (dead p2) = false ->
                 lastDeathState p' = lastDeathState p2)).
Proof.
  intros E pos edge p2. pose proof (valid_lookup _ _ _ E) as V.
  (* the bounds and the boundary test *)
  set (evs2 := if edge && negb (dead p)
               then [broadcastPlayerDeath r true] else []).
  set (w2 := if edge && negb (dead p)
             then set_log (log w ++ [broadcastPlayerDeath r true])
                    (set_reads (S (reads w)) w)
             else w).
  assert (F2 : players w2 = players w /\ arena w2 = arena w
               /\ clock w2 = clock w /\ log w2 = log w ++ evs2).
  { subst w2 evs2. destruct (edge && negb (dead p)); cbn;
      rewrite ?app_nil_r; now repeat split. }
  destruct F2 as (P2 & A2 & C2 & L2).
  assert (P12 : currentPositionChanged r w
                = (p ← getPlayer r;
                   overlapping ← getOverlappingTrailBoundsPlayers
                                   (currentPosition p);
                   forEach overlapping (checkHit r);;
                   sendRequiredEdgeChunks r) (put r p2 w2)).
  { rewrite <- (put_id _ _ _ E) at 1. unfold currentPositionChanged.
    rewrite run_bind, getPlayer_put by exact V. cbv beta iota.
    rewrite run_bind.
    assert (B : (if isGeneratingTrail p
                 then update r (fun p => set_trailBounds
                          (extendBounds (trailBounds p) (currentPosition p)) p)
                 else update r (fun p => set_trailBounds
                          (Rect.mk (currentPosition p) (currentPosition p)) p))
                  (put r p w)
                = (Ok tt, put r (set_trailBounds (boundsAfterMove p) p) w)).
    { unfold boundsAfterMove.
      destruct (isGeneratingTrail p); now rewrite update_put. }
    rewrite B. cbv beta iota.
    rewrite run_bind, getPlayer_put by exact V. cbv beta iota.
    rewrite run_bind, getArena_put. cbv beta iota.
    rewrite run_bind. cbn [currentPosition set_trailBounds].
    fold pos. change ((Vec2.x pos <=? 0) || (Vec2.y pos <=? 0)
             || (Vec2.x pos >=? width (arena w) - 1)
             || (Vec2.y pos >=? height (arena w) - 1)) with edge.
    subst p2 w2. unfold afterEdgeTest.
    destruct edge; cbn [andb].
    - destruct (dead p) eqn:D; cbn [negb].
      + rewrite die_dead by (exact V || exact D). reflexivity.
      + rewrite die_alive by (exact V || exact D). reflexivity.
    - rewrite run_ret. reflexivity. }
  assert (V2 : valid r w2) by (unfold valid; now rewrite P2).
  assert (Pp2 : currentPosition p2 = pos /\ dead p2 = dead p || edge
                /\ trailVertices p2 = trailVertices p).
  { subst p2. unfold afterEdgeTest.
    destruct edge, (dead p) eqn:D; cbn; unfold dead; cbn;
      try rewrite D; repeat split; try reflexivity;
      unfold dead in D; now destruct (lastDeathState p). }
  destruct Pp2 as (Pos2 & D2 & T2).
  (* the overlapping players *)
  destruct (getOverlappingTrailBoundsPlayers_run pos (put r p2 w2))
    as (l & Rl & NDl & Ml).
  destruct (forEach_checkHit r pos l (put r p2 w2) NDl)
    as (w3 & evs3 & R3 & G3 & L3 & A3 & C3 & H3).
  { intros x Hx. apply Ml in Hx as (a & Ea & _).
    eapply valid_lookup, Ea. }
  { exists p2. split; [now apply lookup_put|exact Pos2]. }
  (* the edge chunks *)
  destruct (H3 r p2 (lookup_put _ _ _ V2))
    as (Ab3 & p3 & E3 & Gp3 & S3 & U3).
  destruct (sendRequiredEdgeChunks_frame w3 r p3 E3)
    as (p4 & sent & R4 & Gp4 & Dp4 & Ab4).
  assert (Hr : bool_decide (r ∈ l) = true).
  { apply bool_decide_eq_true_2, Ml. exists p2.
    split; [now apply lookup_put|].
    subst p2. unfold afterEdgeTest.
    destruct (edge && negb (dead p));
      apply (pointIsInTrailBounds_afterMove p). }
  assert (Hh : hitOn p2 pos (negb (bool_decide (r = r))) = hitOn p pos false).
  { rewrite bool_decide_eq_true_2 by reflexivity. cbn [negb].
    unfold hitOn, pointIsInTrail, isGeneratingTrail.
    now rewrite T2. }
  rewrite Hr, Hh in Ab3, S3, U3. cbn [andb] in Ab3, S3, U3.
  exists (put r p4 (set_log (log w3 ++ sent) w3)), (evs2 ++ evs3 ++ sent).
  split.
  { rewrite P12. rewrite run_bind, getPlayer_put by exact V2.
    cbv beta iota. rewrite Pos2, run_bind, Rl. cbv beta iota.
    rewrite run_bind, R3. exact R4. }
  split. { cbn. rewrite L3. cbn. rewrite L2. now rewrite <- !app_assoc. }
  split. { cbn. rewrite A3. cbn. exact A2. }
  split. { cbn. rewrite C3. cbn. exact C2. }
  split.
  { eapply sameGeom_trans; [|apply (sameGeom_put w3 _ r p3 p4 E3 eq_refl Gp4)].
    eapply sameGeom_trans; [|exact G3].
    unfold sameGeom, put. cbn. now rewrite P2. }
  split.
  - intros q a N Eq struck.
    destruct (H3 q a) as (AbQ & a' & Ea' & Ga' & Sa' & Ua').
    { rewrite lookup_put_ne by congruence. now rewrite P2. }
    assert (Hq : bool_decide (q ∈ l) = pointIsInTrailBounds a pos).
    { destruct (pointIsInTrailBounds a pos) eqn:B.
      - apply bool_decide_eq_true_2, Ml. exists a. split; [|exact B].
        rewrite lookup_put_ne by congruence. now rewrite P2.
      - apply bool_decide_eq_false_2. intros Hin.
        apply Ml in Hin as (a0 & Ea0 & B0).
        rewrite lookup_put_ne in Ea0 by congruence. rewrite P2 in Ea0.
        congruence. }
    rewrite Hq in AbQ, Sa', Ua'.
    rewrite (bool_decide_eq_false_2 _ N) in AbQ, Sa', Ua'.
    cbn [negb] in AbQ, Sa', Ua'. fold struck in AbQ, Sa', Ua'.
    split.
    + rewrite !about_app, AbQ, Ab4, app_nil_r. subst evs2.
      destruct (edge && negb (dead p)); [|reflexivity].
      unfold about. cbn. rewrite bool_decide_eq_false_2; [reflexivity|].
      congruence.
    + exists a'. rewrite lookup_put_ne by congruence.
      now repeat split.
  - intros struck. split.
    + rewrite !about_app, Ab3, Ab4, app_nil_r. subst evs2. f_equal.
      destruct (edge && negb (dead p)); [|reflexivity].
      unfold about. cbn. now rewrite bool_decide_eq_true_2.
    + exists p4. split; [apply lookup_put; eapply valid_lookup, E3|].
      split; [congruence|]. rewrite Dp4. split.
      * exact S3.
      * intros F. now rewrite (U3 F).
Qed.
(** C5, amended: when the new position is on the arena edge and the mover
    is not yet marked dead, [#currentPositionChanged] returns normally,
    the mover is marked dead with type area-bounds at the clock reading of
    the call, and the announcements about the mover made by the call are
    one death broadcast with [sendPosition = true], followed by one hit
    line if the position also lies on the mover's own trail. *)
Theorem currentPositionChanged_area_bounds w r p :
  players w !! r = Some p -> dead p = false ->
  onEdge (arena w) (currentPosition p) = true ->
  exists w' p',
    currentPositionChanged r w = (Ok tt, w')
    /\ players w' !! r = Some p'
    /\ lastDeathState p'
       = Some {| dieTime := clock w (reads w); type := AreaBounds |}
    /\ about r (newEvents w w')
       = broadcastPlayerDeath r true
         :: (if hitOn p (currentPosition p) false
             then [broadcastHitLineAnimation r r] else []).
Proof.
  intros E D Ed.
  destruct (currentPositionChanged_run w r p E)
    as (w' & evs & R & L & _ & _ & _ & _ & Ab & p' & Ep' & _ & _ & U).
  unfold afterEdgeTest in Ab, U. rewrite Ed, D in Ab. rewrite Ed, D in U.
  cbn [andb negb] in Ab, U.
  exists w', p'. split; [exact R|]. split; [exact Ep'|]. split.
  - rewrite U; [reflexivity|]. unfold dead. cbn. apply andb_false_r.
  - rewrite (newEvents_app _ _ _ L), Ab. cbn [app].
    destruct (hitOn _ _ _); reflexivity.
Qed.

(** C4, amended: a player whose trail bounds contain the new position of
    the mover (for the mover itself this always holds after the update of
    its bounds) and whose trail contains it, the last segment being left
    out for the mover itself. [#currentPositionChanged] returns normally
    and announces exactly one hit line for that victim. A victim that was
    already marked dead keeps its death state and no death is broadcast.
    A victim that was alive is marked dead and one death is broadcast:
    with type player and [sendPosition = false] for another player, with
    [sendPosition = true] for the mover itself, whose type is self unless
    the same position is on the arena edge, in which case it is
    area-bounds. *)
Theorem currentPositionChanged_hits w this me victim v :
  players w !! this = Some me -> players w !! victim = Some v ->
  let pos := currentPosition me in
  let self := bool_decide (victim = this) in
  self = true \/ pointIsInTrailBounds v pos = true ->
  pointIsInTrail v pos (negb self) = Ok true ->
  exists w' v',
    currentPositionChanged this w = (Ok tt, w')
    /\ players w' !! victim = Some v'
    /\ about victim (newEvents w w')
       = (if dead v then [] else [broadcastPlayerDeath victim self])
         ++ [broadcastHitLineAnimation victim this]
    /\ (dead v = true -> lastDeathState v' = lastDeathState v)
    /\ (dead v = false ->
        exists t,
          lastDeathState v'
          = Some {| dieTime := t;
                    type := if self
                            then if onEdge (arena w) pos then AreaBounds
                                 else Self
                            else ByPlayer |}).
Proof.
  intros Em Ev pos self B H.
  assert (Hh : hitOn v pos (negb self) = true) by (unfold hitOn; now rewrite H).
  destruct (currentPositionChanged_run w this me Em)
    as (w' & evs & R & L & _ & _ & _ & Oth & Own).
  fold pos in Oth, Own. exists w'.
  destruct (decide (victim = this)) as [->|N].
  - assert (v = me) as -> by congruence.
    subst self. rewrite bool_decide_eq_true_2 in * by reflexivity.
    cbn [negb] in Hh. rewrite Hh in Own.
    destruct Own as (Ab & p' & Ep' & _ & S & U).
    exists p'. split; [exact R|]. split; [exact Ep'|].
    unfold afterEdgeTest, struckEvents, struckState in *.
    rewrite bool_decide_eq_true_2 in * by reflexivity.
    destruct (dead me) eqn:D.
    + rewrite andb_false_r in *. cbn [app negb andb] in *.
      unfold dead in Ab, U, S. cbn in Ab, U, S. unfold dead in D.
      destruct (lastDeathState me) eqn:Dm; [|discriminate].
      split; [now rewrite (newEvents_app _ _ _ L)|].
      split; [intros _; now apply U|discriminate].
    + rewrite andb_true_r in *. cbn [negb] in *.
      split.
      { rewrite (newEvents_app _ _ _ L), Ab.
        destruct (onEdge (arena w) pos); cbn [app]; [reflexivity|].
        unfold dead. cbn. unfold dead in D. now rewrite D. }
      split; [discriminate|]. intros _.
      destruct (onEdge (arena w) pos).
      * exists (clock w (reads w)). now apply U.
      * destruct S as [t St]; [|now exists t].
        unfold dead. cbn. unfold dead in D. now rewrite D.
  - subst self. rewrite bool_decide_eq_false_2 in * by exact N.
    cbn [negb] in Hh. destruct B as [B|B]; [discriminate|].
    destruct (Oth victim v N Ev) as (Ab & v' & Ev' & _ & S & U).
    rewrite B, Hh in Ab, S, U. cbn [andb] in Ab, S, U.
    unfold struckEvents, struckState in *.
    rewrite bool_decide_eq_false_2 in * by exact N.
    exists v'. split; [exact R|]. split; [exact Ev'|].
    split; [now rewrite (newEvents_app _ _ _ L)|].
    split.
    + intros D. rewrite D in U. now rewrite (U eq_refl).
    + intros D. rewrite D in S. now apply S.
Qed.


End Moves.

(** ** Examples of moves *)

(** A mover stands on the arena edge at (0,4): it is marked dead with type
    area-bounds. *)
Lemma currentPositionChanged_area_bounds_witness :
  exists w' p',
    currentPositionChanged (cfg := sampleConfig) (util := sampleUtil)
      (ops := sampleArena) 0%nat (worldOf [steppedOnEdge] (stopped 7))
    = (Ok tt, w')
    /\ players w' !! 0%nat = Some p'
    /\ type <$> lastDeathState p' = Some AreaBounds.
Proof.
  destruct (currentPositionChanged_area_bounds (cfg := sampleConfig)
              (util := sampleUtil) (ops := sampleArena)
              (worldOf [steppedOnEdge] (stopped 7)) 0%nat steppedOnEdge
              eq_refl eq_refl eq_refl)
    as (w' & p' & R & E & D & _).
  exists w', p'. split; [exact R|]. split; [exact E|]. now rewrite D.
Defined.

(** C5, as stated, fails: in one long tick the player first steps on its
    own trail at (1,4) and is marked dead with type self, then steps on
    the arena edge at (0,4); no death of type area-bounds is recorded or
    announced for that move. *)
Lemma edge_reached_by_dead_mover :
  (fun p => (currentPosition p, type <$> lastDeathState p))
  <$> players
        (snd (loop (cfg := sampleConfig) (util := sampleUtil)
                (ops := sampleArena) 2 0%nat 0 400
                (worldOf [crossingOwnTrail] (stopped 1000))))
      !! 0%nat
  = Some (Vec2.mk 0 4, Some Self)
  /\ onEdge (ops := sampleArena) (arena (worldOf [crossingOwnTrail]
                                           (stopped 1000)))
       (Vec2.mk 0 4) = true
  /\ about 0
       (log (snd (loop (cfg := sampleConfig) (util := sampleUtil)
                    (ops := sampleArena) 2 0%nat 0 400
                    (worldOf [crossingOwnTrail] (stopped 1000)))))
     = [broadcastPlayerDeath 0%nat true; broadcastHitLineAnimation 0%nat 0%nat].
Proof. repeat split; vm_compute; reflexivity. Qed.

(** A mover at (2,10) on the last segment of a living player's trail: the
    player is marked dead with type player. *)
Lemma currentPositionChanged_hits_witness :
  exists w' v',
    currentPositionChanged (cfg := sampleConfig) (util := sampleUtil)
      (ops := sampleArena) 0%nat
      (worldOf [standingAt (Vec2.mk 2 10) 1; aliveNearEdge] (stopped 7))
    = (Ok tt, w')
    /\ players w' !! 1%nat = Some v'
    /\ about 1 (newEvents
                  (worldOf [standingAt (Vec2.mk 2 10) 1; aliveNearEdge]
                     (stopped 7)) w')
       = [broadcastPlayerDeath 1%nat false;
          broadcastHitLineAnimation 1%nat 0%nat]
    /\ type <$> lastDeathState v' = Some ByPlayer.
Proof.
  destruct (currentPositionChanged_hits (cfg := sampleConfig)
              (util := sampleUtil) (ops := sampleArena)
              (worldOf [standingAt (Vec2.mk 2 10) 1; aliveNearEdge] (stopped 7))
              0%nat (standingAt (Vec2.mk 2 10) 1) 1%nat aliveNearEdge
              eq_refl eq_refl (or_intror eq_refl) eq_refl)
    as (w' & v' & R & E & Ab & _ & D).
  exists w', v'. split; [exact R|]. split; [exact E|]. split; [exact Ab|].
  destruct (D eq_refl) as [t ->]. reflexivity.
Defined.

(** C4, as stated, fails: the mover steps from (2,9) to (2,10), a point of
    the trail of a player that is already marked dead with type
    area-bounds. The hit line is announced, but the victim does not die
    with type player: its death state stays and no death is broadcast. *)
Lemma hit_on_dead_player :
  pointIsInTrailBounds deadAtEdge (Vec2.mk 2 10) = true
  /\ pointIsInTrail (util := sampleUtil) deadAtEdge (Vec2.mk 2 10) true
     = Ok true
  /\ (fun p => (currentPosition p))
     <$> players
           (snd (loop (cfg := sampleConfig) (util := sampleUtil)
                   (ops := sampleArena) 1 0%nat 0 200
                   (worldOf [moverAbove; deadAtEdge] (stopped 100))))
         !! 0%nat
     = Some (Vec2.mk 2 10)
  /\ lastDeathState
     <$> players
           (snd (loop (cfg := sampleConfig) (util := sampleUtil)
                   (ops := sampleArena) 1 0%nat 0 200
                   (worldOf [moverAbove; deadAtEdge] (stopped 100))))
         !! 1%nat
     = Some (Some {| dieTime := 0; type := AreaBounds |})
  /\ about 1
       (log (snd (loop (cfg := sampleConfig) (util := sampleUtil)
                    (ops := sampleArena) 1 0%nat 0 200
                    (worldOf [moverAbove; deadAtEdge] (stopped 100)))))
     = [broadcastHitLineAnimation 1%nat 0%nat].
Proof. repeat split; vm_compute; reflexivity. Qed.



(** The bounds are not touched when an accepted intent moves the player:
    heading right at (20,20) with bounds from (18,20) to (20,20), the turn
    up at (25,20) is accepted, (25,20) becomes the position and a trail
    vertex, and both lie outside the bounds. *)
Lemma bounds_stay_after_accepted_intent :
  boundsView
  <$> players
        (snd (clientPosUpdateRequested 2 0%nat Up (Vec2.mk 25 20)
                (worldOf [trailingRight] (stopped 0))))
      !! 0%nat
  = Some (true, Rect.mk (Vec2.mk 18 20) (Vec2.mk 20 20), Vec2.mk 25 20,
          [Vec2.mk 18 20; Vec2.mk 25 20])
  /\ pointIsInTrailBounds
       (set_trailBounds (Rect.mk (Vec2.mk 18 20) (Vec2.mk 20 20))
          (initialPlayer 1))
       (Vec2.mk 25 20) = false.
Proof. split; vm_compute; reflexivity. Qed.

(** ** The cached tile value while a trail is generated

    [updateCurrentTile_closes_trail] asks for a cached tile value that is
    not the player's id. Every world the public methods produce gives it. *)

Section TileCache.
Context {cfg : Config} {util : Util} {Arena : Type} {ops : ArenaOps Arena}.
Implicit Types (w : World Arena) (r q : ref) (p a : Player).













End TileCache.


(** ** One intent on an empty queue *)

Section Intents.
Context {cfg : Config} {util : Util} {Arena : Type} {ops : ArenaOps Arena}.
Implicit Types (w : World Arena) (r : ref) (p : Player).

(** X1: A request to pause is accepted from every direction but paused
    itself, and a paused player accepts every direction but paused; the
    desired position is not looked at in either case. *)
Theorem checkNextMoveValidity_pausing p (dp : Vec2) (nd : Direction) :
  (checkNextMoveValidity p dp Paused = true <-> currentDirection p <> Paused)
  /\ (currentDirection p = Paused ->
      (checkNextMoveValidity p dp nd = true <-> nd <> Paused)).
Proof.
  unfold checkNextMoveValidity. split.
  - destruct (currentDirection p); cbn; split; intros; congruence.
  - intros ->. destruct nd; cbn; split; intros; congruence.
Qed.

(** X2: A rejected intent on an empty queue changes nothing at all:
    position, direction and trail stay, the queue is empty again and nobody
    is told. *)
Theorem clientPosUpdateRequested_rejected w r p d (dp : Vec2) fuel :
  players w !! r = Some p -> movementQueue p = [] ->
  checkNextMoveValidity p dp d = false -> (2 <= fuel)%nat ->
  clientPosUpdateRequested fuel r d dp w = (Ok tt, w).
Proof.
  intros E Q C F. pose proof (valid_lookup _ _ _ E) as V.
  destruct fuel as [|[|fuel]]; [lia|lia|].
  rewrite <- (put_id _ _ _ E) at 1.
  unfold clientPosUpdateRequested. mrun V.
  rewrite drainMovementQueue_S. mrun V.
  cbn [movementQueue set_movementQueue]. rewrite Q. cbn [app].
  cbv zeta. cbn [desiredPosition direction].
  change (checkNextMoveValidity (set_movementQueue _ p) dp d)
    with (checkNextMoveValidity p dp d).
  rewrite C. cbn [negb]. mrun V. cbn [movementQueue set_movementQueue tail].
  rewrite drainMovementQueue_S. mrun V. cbn [movementQueue set_movementQueue].
  mrun V. apply (f_equal (pair (Ok tt))).
  replace (set_movementQueue [] (set_movementQueue _ p)) with p.
  - now apply put_id.
  - symmetry. destruct p. cbn in *. now subst.
Qed.

(** X3: An accepted intent on an empty queue: the player jumps to the
    desired position, which becomes a trail vertex if a trail is generated,
    takes the new direction, and the new state is broadcast once. Nothing
    else changes; the trail bounds in particular stay as they were. *)
Theorem clientPosUpdateRequested_accepted w r p d (dp : Vec2) fuel :
  players w !! r = Some p -> movementQueue p = [] ->
  checkNextMoveValidity p dp d = true -> (2 <= fuel)%nat ->
  clientPosUpdateRequested fuel r d dp w
  = (Ok tt,
     put r
       (set_currentDirection d
          (set_trailVertices
             (if isGeneratingTrail p then trailVertices p ++ [dp]
              else trailVertices p)
             (set_currentPosition dp p)))
       (set_log (log w ++ [broadcastPlayerState r]) w)).
Proof.
  intros E Q C F. pose proof (valid_lookup _ _ _ E) as V.
  destruct fuel as [|[|fuel]]; [lia|lia|].
  rewrite <- (put_id _ _ _ E) at 1.
  unfold clientPosUpdateRequested. mrun V.
  rewrite drainMovementQueue_S. mrun V.
  cbn [movementQueue set_movementQueue]. rewrite Q. cbn [app].
  cbv zeta. cbn [desiredPosition direction].
  change (checkNextMoveValidity (set_movementQueue _ p) dp d)
    with (checkNextMoveValidity p dp d).
  rewrite C. cbn [negb]. mrun V.
  change (isGeneratingTrail (set_currentPosition _ (set_movementQueue _ _)))
    with (isGeneratingTrail p).
  destruct (isGeneratingTrail p); mrun V;
    rewrite drainMovementQueue_S; mrun V;
    cbn [movementQueue set_movementQueue set_currentDirection
         set_trailVertices set_currentPosition tail]; mrun V;
    apply (f_equal (pair (Ok tt))); f_equal;
    destruct p; cbn in *; now subst.
Qed.
End Intents.

(** Heading right, a request to pause at a place off the row is accepted. *)
Lemma checkNextMoveValidity_pausing_witness :
  checkNextMoveValidity (heading Right 1) (Vec2.mk 3 7) Paused = true.
Proof.
  apply (proj1 (checkNextMoveValidity_pausing (heading Right 1)
                  (Vec2.mk 3 7) Paused)).
  discriminate.
Defined.

(** Heading up at (20,20): the request to turn up is dropped. *)
Lemma clientPosUpdateRequested_rejected_witness :
  clientPosUpdateRequested 2 0%nat Up (Vec2.mk 20 20)
    (worldOf [initialPlayer 1] (stopped 0))
  = (Ok tt, worldOf [initialPlayer 1] (stopped 0)).
Proof.
  apply (clientPosUpdateRequested_rejected
           (worldOf [initialPlayer 1] (stopped 0)) 0%nat (initialPlayer 1)
           Up (Vec2.mk 20 20) 2 eq_refl eq_refl eq_refl (le_n 2)).
Defined.

(** Heading right with a trail: the turn up at (25,20) is taken. *)
Lemma clientPosUpdateRequested_accepted_witness :
  boundsView
  <$> players
        (snd (clientPosUpdateRequested 2 0%nat Up (Vec2.mk 25 20)
                (worldOf [trailingRight] (stopped 0))))
      !! 0%nat
  = Some (true, Rect.mk (Vec2.mk 18 20) (Vec2.mk 20 20), Vec2.mk 25 20,
          [Vec2.mk 18 20; Vec2.mk 25 20]).
Proof.
  rewrite (clientPosUpdateRequested_accepted
             (worldOf [trailingRight] (stopped 0)) 0%nat trailingRight
             Up (Vec2.mk 25 20) 2 eq_refl eq_refl eq_refl (le_n 2)).
  reflexivity.
Defined.

(** ** Tile changes under the player *)

Section Tiles.
Context {cfg : Config} {util : Util} {Arena : Type} {ops : ArenaOps Arena}.
Implicit Types (w : World Arena) (r : ref) (p : Player).

(** [#updateCurrentTile] in full, by the cases of its three tests. *)
Lemma updateCurrentTile_run w r p :
  players w !! r = Some p ->
  let pos := currentPosition p in
  let tile := getTileValue (arena w) pos in
  let closed := trailVertices p ++ [pos] in
  updateCurrentTile r w
  = if currentTileType p =? tile then (Ok tt, w)
    else if negb (tile =? id p) && negb (isGeneratingTrail p) then
      (Ok tt,
       put r (set_currentTileType tile (set_trailVertices closed p))
         (set_log (log w ++ [broadcastPlayerTrail r]) w))
    else if (tile =? id p) && isGeneratingTrail p then
      if allMyTilesCleared p then
        (Stop (Thrown tilesRemovedMessage),
         put r (set_trailVertices closed p) w)
      else
        (Ok tt,
         put r (set_currentTileType tile (set_trailVertices [] p))
           (set_arena
              (onUpdateCapturedArea (id p)
                 (onFillPlayerTrail closed (id p) (arena w)))
              (set_log
                 (log w ++ [fillPlayerTrail closed (id p);
                            updateCapturedArea (id p);
                            broadcastPlayerTrail r]) w)))
    else (Ok tt, put r (set_currentTileType tile p) w).
Proof.
  intros E pos tile closed. pose proof (valid_lookup _ _ _ E) as V.
  rewrite <- (put_id _ _ _ E) at 1.
  unfold updateCurrentTile. mrun V. cbn [arena]. fold pos tile.
  destruct (currentTileType p =? tile); cbn [negb].
  { mrun V. now rewrite put_id. }
  destruct (tile =? id p) eqn:Own; cbn [negb andb].
  - mrun V. rewrite Own. cbn [andb].
    destruct (isGeneratingTrail p).
    + mrun V. cbn [allMyTilesCleared set_trailVertices].
      destruct (allMyTilesCleared p); mrun V; [reflexivity|].
      cbn. unfold put, set_players, set_arena, set_log. cbn.
      now rewrite <- !app_assoc.
    + now mrun V.
  - destruct (isGeneratingTrail p) eqn:G; cbn [negb].
    + mrun V. rewrite Own. cbn [andb]. now mrun V.
    + mrun V. cbn [id set_trailVertices]. rewrite Own. cbn [andb].
      now mrun V.
Qed.

(** X4: While the arena reports the cached value for the tile under the
    player, [#updateCurrentTile] changes nothing and calls nobody. *)
Theorem updateCurrentTile_same_tile w r p :
  players w !! r = Some p ->
  getTileValue (arena w) (currentPosition p) = currentTileType p ->
  updateCurrentTile r w = (Ok tt, w).
Proof.
  intros E T. rewrite (updateCurrentTile_run w r p E).
  now rewrite T, Z.eqb_refl.
Qed.


(** X6: The assertion: a player with a trail that comes back onto its own
    tile after its tiles were released. The call throws; by then the
    closing vertex has been appended, and nothing else has happened: no
    call on the arena or the game, the trail is not emptied and the tile
    value is not cached. *)
Theorem updateCurrentTile_after_release w r p :
  players w !! r = Some p ->
  isGeneratingTrail p = true ->
  getTileValue (arena w) (currentPosition p) = id p ->
  currentTileType p <> id p ->
  allMyTilesCleared p = true ->
  updateCurrentTile r w
  = (Stop (Thrown tilesRemovedMessage),
     put r (set_trailVertices (trailVertices p ++ [currentPosition p]) p) w).
Proof.
  intros E G O C A. rewrite (updateCurrentTile_run w r p E).
  apply Z.eqb_neq in C. now rewrite O, C, Z.eqb_refl, G, A.
Qed.

(** X7: After a normal return the cached tile value is the one the arena
    reported for the player's tile. If the call found another value than
    the cached one, or if the player was generating a trail exactly when
    the cached value was not its id, then the latter holds afterwards. *)
Theorem updateCurrentTile_trail_matches_tile w r p w' :
  players w !! r = Some p ->
  updateCurrentTile r w = (Ok tt, w') ->
  exists p',
    players w' !! r = Some p'
    /\ currentTileType p' = getTileValue (arena w) (currentPosition p)
    /\ (trailMatchesTile p
        \/ getTileValue (arena w) (currentPosition p) <> currentTileType p ->
        trailMatchesTile p').
Proof.
  intros E. pose proof (valid_lookup _ _ _ E) as V.
  rewrite (updateCurrentTile_run w r p E). unfold trailMatchesTile.
  destruct (Z.eqb_spec (currentTileType p)
              (getTileValue (arena w) (currentPosition p))) as [Same|Diff].
  { intros [= <-]. exists p. split; [exact E|]. split; [exact Same|].
    intros [J|N]; [exact J|congruence]. }
  destruct (Z.eqb_spec (getTileValue (arena w) (currentPosition p)) (id p))
    as [Own|Foreign];
    destruct (isGeneratingTrail p) eqn:G; cbn [negb andb].
  - destruct (allMyTilesCleared p); [discriminate|]. intros [= <-].
    eexists. split; [now apply lookup_put|]. split; [reflexivity|].
    intros _. cbn. split; [discriminate|congruence].
  - intros [= <-]. eexists. split; [now apply lookup_put|].
    split; [reflexivity|]. intros _.
    change (isGeneratingTrail (set_currentTileType
              (getTileValue (arena w) (currentPosition p)) p))
      with (isGeneratingTrail p).
    rewrite G. cbn. split; [discriminate|congruence].
  - intros [= <-]. eexists. split; [now apply lookup_put|].
    split; [reflexivity|]. intros _.
    change (isGeneratingTrail (set_currentTileType
              (getTileValue (arena w) (currentPosition p)) p))
      with (isGeneratingTrail p).
    rewrite G. cbn. split; [congruence|reflexivity].
  - intros [= <-]. eexists. split; [now apply lookup_put|].
    split; [reflexivity|]. intros _. cbn. split; [congruence|].
    intros _. exact (isGeneratingTrail_app p (currentPosition p)).
Qed.
End Tiles.

(** The arena reports 0 for (20,20), the value a new player has cached. *)
Lemma updateCurrentTile_same_tile_witness :
  updateCurrentTile (ops := sampleArena) 0%nat
    (worldOf [initialPlayer 1] (stopped 0))
  = (Ok tt, worldOf [initialPlayer 1] (stopped 0)).
Proof.
  apply (updateCurrentTile_same_tile (ops := sampleArena)
           (worldOf [initialPlayer 1] (stopped 0)) 0%nat (initialPlayer 1)
           eq_refl eq_refl).
Defined.


(** The tile (5,6) is reported as player 1's although its tiles were
    released: the assertion fires. *)
Lemma updateCurrentTile_after_release_witness :
  fst (updateCurrentTile (ops := sampleArena) 0%nat
         (worldWith [trailingWithoutTiles] [(Vec2.mk 5 6, 1)] (stopped 0)))
  = Stop (Thrown tilesRemovedMessage).
Proof.
  rewrite (updateCurrentTile_after_release (ops := sampleArena)
             (worldWith [trailingWithoutTiles] [(Vec2.mk 5 6, 1)] (stopped 0))
             0%nat trailingWithoutTiles
             eq_refl eq_refl eq_refl ltac:(discriminate) eq_refl).
  reflexivity.
Defined.

(** Starting a trail on (7,7): the value 0 of that tile is cached. *)
Lemma updateCurrentTile_trail_matches_tile_witness :
  exists p',
    players
      (snd (updateCurrentTile (ops := sampleArena) 0%nat
              (worldOf [leavingArea] (stopped 0))))
    !! 0%nat = Some p'
    /\ currentTileType p' = 0.
Proof.
  destruct (updateCurrentTile_trail_matches_tile (ops := sampleArena)
              (worldOf [leavingArea] (stopped 0)) 0%nat leavingArea
              (snd (updateCurrentTile (ops := sampleArena) 0%nat
                      (worldOf [leavingArea] (stopped 0))))
              eq_refl eq_refl)
    as (p' & E & C & _).
  exists p'. split; [exact E|exact C].
Defined.

(** ** Ticks that do not move the player *)

Section Idle.
Context {cfg : Config} {util : Util} {Arena : Type} {ops : ArenaOps Arena}.
Implicit Types (w : World Arena) (r : ref) (p : Player).

(** X8: A tick of a living player that is paused changes nothing and does
    not read the clock. A tick of a living player whose progress, with the
    travel of this tick added, does not exceed one tile only stores the new
    progress. *)
Theorem loop_without_move w r p fuel (now dt : Q) :
  players w !! r = Some p ->
  lastDeathState p = None -> permanentlyDead p = false ->
  (currentDirection p = Paused -> loop fuel r now dt w = (Ok tt, w))
  /\ (currentDirection p <> Paused ->
      (nextTileProgress p + dt * PLAYER_TRAVEL_SPEED <= 1)%Q ->
      loop fuel r now dt w
      = (Ok tt,
         put r
           (set_nextTileProgress
              (nextTileProgress p + dt * PLAYER_TRAVEL_SPEED)%Q p) w)).
Proof.
  intros E D L. pose proof (valid_lookup _ _ _ E) as V.
  replace (loop fuel r now dt w) with (loop fuel r now dt (put r p w))
    by now rewrite put_id.
  unfold loop. mrun V. unfold dead. rewrite D. split.
  - intros P. rewrite P. cbn [same negb andb]. mrun V.
    unfold checkDeathTimers. mrun V. rewrite D. mrun V. rewrite L. mrun V.
    now rewrite put_id.
  - intros P T.
    replace (same (currentDirection p) Paused) with false
      by (destruct (currentDirection p); try reflexivity; congruence).
    cbn [negb andb]. mrun V.
    assert (W : moveWhileProgress fuel r
                  (put r
                     (set_nextTileProgress
                        (nextTileProgress p + dt * PLAYER_TRAVEL_SPEED)%Q p)
                     w)
                = (Ok tt,
                   put r
                     (set_nextTileProgress
                        (nextTileProgress p + dt * PLAYER_TRAVEL_SPEED)%Q p)
                     w)).
    { destruct fuel; cbn [moveWhileProgress]; mrun V;
        cbn [nextTileProgress set_nextTileProgress];
        rewrite (Qgtb_false _ _ T); now mrun V. }
    rewrite W. cbv beta iota.
    unfold checkDeathTimers. mrun V.
    cbn [lastDeathState permanentlyDead set_nextTileProgress].
    rewrite D. mrun V.
    cbn [lastDeathState permanentlyDead set_nextTileProgress].
    rewrite L. now mrun V.
Qed.
End Idle.

(** A new player heads up; paused, its tick is idle. *)
Lemma loop_without_move_witness :
  loop (cfg := sampleConfig) (util := sampleUtil) (ops := sampleArena)
    0 0%nat 0 16 (worldOf [heading Paused 1] (stopped 0))
  = (Ok tt, worldOf [heading Paused 1] (stopped 0)).
Proof.
  apply (proj1 (loop_without_move (cfg := sampleConfig) (util := sampleUtil)
                  (ops := sampleArena)
                  (worldOf [heading Paused 1] (stopped 0)) 0%nat
                  (heading Paused 1) 0 0 16 eq_refl eq_refl eq_refl)).
  reflexivity.
Defined.

(** ** Permanent death and the release of the tiles *)

Section Release.
Context {cfg : Config} {util : Util} {Arena : Type} {ops : ArenaOps Arena}.
Implicit Types (w : World Arena) (r : ref) (p : Player).

(** X9: The permanent-death transition of a player that is not yet
    permanently dead. With a death state it returns normally: both latches
    are set, the time is taken from the clock, the tiles are released
    unless they were already, and the game-over message carries the
    recorded death type. Without a death state it throws, and by then the
    latches are set and the tiles released all the same. *)
Theorem permanentlyDie_transition w r p :
  players w !! r = Some p -> permanentlyDead p = false ->
  let p' :=
    set_allMyTilesCleared true
      (set_permanentlyDieTime (clock w (reads w))
         (set_permanentlyDead true p)) in
  let released :=
    if allMyTilesCleared p then [] else [clearAllPlayerTiles (id p)] in
  let arena' :=
    if allMyTilesCleared p then arena w
    else onClearAllPlayerTiles (id p) (arena w) in
  (forall ds,
     lastDeathState p = Some ds ->
     permanentlyDie r w
     = (Ok tt,
        put r p'
          (set_arena arena'
             (set_log (log w ++ released ++ [sendGameOver r (type ds)])
                (set_reads (S (reads w)) w)))))
  /\ (lastDeathState p = None ->
      permanentlyDie r w
      = (Stop (Thrown noDeathStateMessage),
         put r p'
           (set_arena arena'
              (set_log (log w ++ released) (set_reads (S (reads w)) w))))).
Proof.
  intros E L p' released arena'. pose proof (valid_lookup _ _ _ E) as V.
  replace (permanentlyDie r w) with (permanentlyDie r (put r p w))
    by now rewrite put_id.
  unfold permanentlyDie. mrun V. rewrite L. mrun V.
  subst p' released arena'.
  destruct (allMyTilesCleared p) eqn:C.
  - rewrite clearAllMyTiles_cleared by (exact V || exact C).
    mrun V. cbn [lastDeathState set_permanentlyDieTime set_permanentlyDead].
    split; [intros ds D|intros D]; rewrite D; mrun V;
      cbn [app]; rewrite ?app_nil_r;
      match goal with
      | |- (_, put r ?P ?W) = (_, put r ?P' ?W') =>
          replace P' with P by (destruct p; cbn in *; now subst);
          replace W' with W by now destruct w
      end; reflexivity.
  - rewrite clearAllMyTiles_first by (exact V || exact C).
    mrun V. cbn [lastDeathState set_permanentlyDieTime set_permanentlyDead
                 set_allMyTilesCleared].
    split; [intros ds D|intros D]; rewrite D; mrun V;
      cbn [app]; (f_equal; f_equal);
      cbn; rewrite <- ?app_assoc; reflexivity.
Qed.

Lemma releases_app l1 l2 : releases (l1 ++ l2) = releases l1 ++ releases l2.
Proof. apply List.filter_app. Qed.

(** X10: A player is marked dead and still has its tiles. Whether it first
    becomes permanently dead and is then removed from the game, or the
    other way round, the arena is asked to release its tiles exactly once. *)
Theorem tiles_released_once w r p ds :
  players w !! r = Some p ->
  lastDeathState p = Some ds -> permanentlyDead p = false ->
  allMyTilesCleared p = false ->
  releases (newEvents w (snd ((permanentlyDie r;; removedFromGame r) w)))
  = [clearAllPlayerTiles (id p)]
  /\ releases (newEvents w (snd ((removedFromGame r;; permanentlyDie r) w)))
     = [clearAllPlayerTiles (id p)].
Proof.
  intros E D L C. pose proof (valid_lookup _ _ _ E) as V.
  rewrite <- (put_id _ _ _ E) at 2 4. unfold removedFromGame. split.
  - rewrite run_bind.
    destruct (permanentlyDie_first r p w ds V L D)
      as (p1 & w1 & -> & _ & _ & _ & C1 & P1 & _ & _ & G1).
    cbv beta iota.
    rewrite clearAllMyTiles_cleared;
      [|unfold valid; now rewrite P1|exact C1].
    cbn [snd]. rewrite C in G1.
    rewrite (newEvents_app w (put r p1 w1) _ G1). reflexivity.
  - rewrite run_bind, clearAllMyTiles_first by assumption. cbv beta iota.
    destruct (permanentlyDie_first r (set_allMyTilesCleared true p)
                (set_arena (onClearAllPlayerTiles (id p) (arena w))
                   (set_log (log w ++ [clearAllPlayerTiles (id p)]) w))
                ds V L D)
      as (p1 & w1 & -> & _ & _ & _ & _ & _ & _ & _ & G1).
    cbn [snd]. cbn in G1.
    rewrite (newEvents_app w (put r p1 w1)
               ([clearAllPlayerTiles (id p)] ++ [sendGameOver r (type ds)])).
    + reflexivity.
    + cbn. rewrite G1. now rewrite <- app_assoc.
Qed.
End Release.

(** Marked dead by its own trail at time 0, permanently dead at time 700. *)
Lemma permanentlyDie_transition_witness :
  log (snd (permanentlyDie (ops := sampleArena) 0%nat
              (worldOf [markedDead 0 Self 1] (stopped 700))))
  = [clearAllPlayerTiles 1; sendGameOver 0%nat Self].
Proof.
  rewrite (proj1 (permanentlyDie_transition (ops := sampleArena)
                    (worldOf [markedDead 0 Self 1] (stopped 700)) 0%nat
                    (markedDead 0 Self 1) eq_refl eq_refl)
             {| dieTime := 0; type := Self |} eq_refl).
  reflexivity.
Defined.

Lemma tiles_released_once_witness :
  releases
    (newEvents (worldOf [markedDead 0 Self 1] (stopped 700))
       (snd ((permanentlyDie (ops := sampleArena) 0%nat;;
              removedFromGame (ops := sampleArena) 0%nat)
               (worldOf [markedDead 0 Self 1] (stopped 700)))))
  = [clearAllPlayerTiles 1].
Proof.
  apply (proj1 (tiles_released_once (ops := sampleArena)
                  (worldOf [markedDead 0 Self 1] (stopped 700)) 0%nat
                  (markedDead 0 Self 1) {| dieTime := 0; type := Self |}
                  eq_refl eq_refl eq_refl eq_refl)).
Defined.

(** ** The trail test *)

Section TrailTest.
Context {cfg : Config} {util : Util} {Arena : Type} {ops : ArenaOps Arena}.
Implicit Types (w : World Arena) (r q : ref) (p a : Player).

(** X11: [pointIsInTrail] never throws: its assertion on the last vertex
    sits behind the test that the trail is not empty. A hit without the
    last segment is a hit with it. A trail of one vertex has no other
    segment than the last one, from that vertex to the player. *)
Theorem pointIsInTrail_answers a (pos : Vec2) (incl : bool) :
  (exists b, pointIsInTrail a pos incl = Ok b)
  /\ (pointIsInTrail a pos false = Ok true ->
      pointIsInTrail a pos true = Ok true)
  /\ (forall v,
        trailVertices a = [v] ->
        pointIsInTrail a pos incl
        = Ok (incl && checkTrailSegment pos v (currentPosition a))).
Proof.
  split; [apply pointIsInTrail_total|]. split.
  - unfold pointIsInTrail. destruct (isGeneratingTrail a); [|discriminate].
    destruct (checkSegments pos (trailVertices a)); [reflexivity|discriminate].
  - intros v T. unfold pointIsInTrail, isGeneratingTrail. rewrite T. cbn.
    destruct incl; [|reflexivity].
    now destruct (checkTrailSegment pos v (currentPosition a)).
Qed.

(** X12: The bounding box decides before the trail does: a player other
    than the mover whose trail bounds do not contain the mover's new
    position is left as it is, and nothing is announced about it, whether
    or not its trail contains the position. *)
Theorem currentPositionChanged_prunes w this me q a :
  players w !! this = Some me -> players w !! q = Some a -> q <> this ->
  pointIsInTrailBounds a (currentPosition me) = false ->
  exists w',
    currentPositionChanged this w = (Ok tt, w')
    /\ players w' !! q = Some a
    /\ about q (newEvents w w') = [].
Proof.
  intros Em Ea N B.
  destruct (currentPositionChanged_run w this me Em)
    as (w' & evs & R & L & _ & _ & _ & Oth & _).
  destruct (Oth q a N Ea) as (Ab & a' & Ea' & _ & _ & U).
  rewrite B in Ab, U. cbn [andb] in Ab, U.
  exists w'. split; [exact R|]. split.
  - now rewrite <- (U eq_refl).
  - now rewrite (newEvents_app _ _ _ L).
Qed.
End TrailTest.

(** A trail from (18,20) to (25,20) with bounds that end at (20,20): the
    mover at (23,20) stands on the trail and is not seen. *)
Lemma currentPositionChanged_prunes_witness :
  pointIsInTrail (util := sampleUtil) turnedAt25 (Vec2.mk 23 20) true
  = Ok true
  /\ exists w',
       currentPositionChanged (cfg := sampleConfig) (util := sampleUtil)
         (ops := sampleArena) 1%nat
         (worldOf [turnedAt25; crossingAt23] (stopped 0))
       = (Ok tt, w')
       /\ players w' !! 0%nat = Some turnedAt25
       /\ about 0 (newEvents (worldOf [turnedAt25; crossingAt23] (stopped 0))
                     w')
          = [].
Proof.
  split; [reflexivity|].
  apply (currentPositionChanged_prunes (cfg := sampleConfig)
           (util := sampleUtil) (ops := sampleArena)
           (worldOf [turnedAt25; crossingAt23] (stopped 0)) 1%nat
           crossingAt23 0%nat turnedAt25 eq_refl eq_refl);
    [discriminate|reflexivity].
Defined.

(** With the sample segment test: the point (2,10) on the last segment of
    a trail that starts at (3,10). *)
Lemma pointIsInTrail_answers_witness :
  pointIsInTrail (util := sampleUtil) aliveNearEdge (Vec2.mk 2 10) true
  = Ok true.
Proof.
  rewrite (proj2 (proj2 (pointIsInTrail_answers (util := sampleUtil)
                           aliveNearEdge (Vec2.mk 2 10) true))
             (Vec2.mk 3 10) eq_refl).
  reflexivity.
Defined.

(** ** Edge chunks around a resting position *)

Section Settled.
Context {cfg : Config} {util : Util} {Arena : Type} {ops : ArenaOps Arena}.
Implicit Types (w : World Arena) (r : ref) (p : Player).

Lemma sendRequiredEdgeChunks_near w r p :
  players w !! r = Some p ->
  lastEdgeChunkSendX p - VIEWPORT_EDGE_CHUNK_SIZE
  < Vec2.x (currentPosition p)
  < lastEdgeChunkSendX p + VIEWPORT_EDGE_CHUNK_SIZE ->
  lastEdgeChunkSendY p - VIEWPORT_EDGE_CHUNK_SIZE
  < Vec2.y (currentPosition p)
  < lastEdgeChunkSendY p + VIEWPORT_EDGE_CHUNK_SIZE ->
  sendRequiredEdgeChunks r w = (Ok tt, w).
Proof.
  intros E X Y. rewrite (sendRequiredEdgeChunks_run w r p E).
  replace (Vec2.x (currentPosition p)
           >=? lastEdgeChunkSendX p + VIEWPORT_EDGE_CHUNK_SIZE)
    with false
    by (match goal with |- _ = (?a >=? ?b) =>
          destruct (Z.geb_spec a b); [lia|reflexivity] end).
  replace (Vec2.y (currentPosition p)
           >=? lastEdgeChunkSendY p + VIEWPORT_EDGE_CHUNK_SIZE)
    with false
    by (match goal with |- _ = (?a >=? ?b) =>
          destruct (Z.geb_spec a b); [lia|reflexivity] end).
  replace (Vec2.x (currentPosition p)
           <=? lastEdgeChunkSendX p - VIEWPORT_EDGE_CHUNK_SIZE)
    with false by (symmetry; apply Z.leb_gt; lia).
  replace (Vec2.y (currentPosition p)
           <=? lastEdgeChunkSendY p - VIEWPORT_EDGE_CHUNK_SIZE)
    with false by (symmetry; apply Z.leb_gt; lia).
  cbn [orb]. rewrite app_nil_r. f_equal.
  replace (set_lastEdgeChunkSendY (lastEdgeChunkSendY p)
             (set_lastEdgeChunkSendX (lastEdgeChunkSendX p) p))
    with p by now destruct p.
  replace (set_log (log w) w) with w by now destruct w.
  now apply put_id.
Qed.

(** X13: A player that is less than a chunk size away, on both axes, from
    the place of the last chunks gets no chunk, and nothing changes. *)
Theorem sendRequiredEdgeChunks_within_reach w r p :
  players w !! r = Some p ->
  lastEdgeChunkSendX p - VIEWPORT_EDGE_CHUNK_SIZE
  < Vec2.x (currentPosition p)
  < lastEdgeChunkSendX p + VIEWPORT_EDGE_CHUNK_SIZE ->
  lastEdgeChunkSendY p - VIEWPORT_EDGE_CHUNK_SIZE
  < Vec2.y (currentPosition p)
  < lastEdgeChunkSendY p + VIEWPORT_EDGE_CHUNK_SIZE ->
  sendRequiredEdgeChunks r w = (Ok tt, w).
Proof. apply sendRequiredEdgeChunks_near. Qed.

(** X14: With a positive chunk size, a run of [#sendRequiredEdgeChunks]
    leaves the player less than a chunk size away, on both axes, from the
    stored coordinates, wherever it was before; a second run right after it
    sends nothing and changes nothing. *)
Theorem sendRequiredEdgeChunks_settles w r p :
  players w !! r = Some p -> 0 < VIEWPORT_EDGE_CHUNK_SIZE ->
  exists w' p',
    sendRequiredEdgeChunks r w = (Ok tt, w')
    /\ players w' !! r = Some p'
    /\ currentPosition p' = currentPosition p
    /\ Z.abs (Vec2.x (currentPosition p') - lastEdgeChunkSendX p')
       < VIEWPORT_EDGE_CHUNK_SIZE
    /\ Z.abs (Vec2.y (currentPosition p') - lastEdgeChunkSendY p')
       < VIEWPORT_EDGE_CHUNK_SIZE
    /\ sendRequiredEdgeChunks r w' = (Ok tt, w').
Proof.
  intros E C. pose proof (valid_lookup _ _ _ E) as V.
  pose proof (sendRequiredEdgeChunks_run w r p E) as R. cbv zeta in R.
  set (px := Vec2.x (currentPosition p)) in *.
  set (py := Vec2.y (currentPosition p)) in *.
  set (cs := VIEWPORT_EDGE_CHUNK_SIZE) in *.
  set (lx := if (px >=? lastEdgeChunkSendX p + cs)
                || (px <=? (if px >=? lastEdgeChunkSendX p + cs then px
                            else lastEdgeChunkSendX p) - cs)
             then px else lastEdgeChunkSendX p) in *.
  set (ly := if (py >=? lastEdgeChunkSendY p + cs)
                || (py <=? (if py >=? lastEdgeChunkSendY p + cs then py
                            else lastEdgeChunkSendY p) - cs)
             then py else lastEdgeChunkSendY p) in *.
  assert (Hx : Z.abs (px - lx) < cs).
  { subst lx. destruct (Z.geb_spec px (lastEdgeChunkSendX p + cs));
      cbn [orb]; [lia|].
    destruct (Z.leb_spec px (lastEdgeChunkSendX p - cs)); lia. }
  assert (Hy : Z.abs (py - ly) < cs).
  { subst ly. destruct (Z.geb_spec py (lastEdgeChunkSendY p + cs));
      cbn [orb]; [lia|].
    destruct (Z.leb_spec py (lastEdgeChunkSendY p - cs)); lia. }
  eexists _, (set_lastEdgeChunkSendY ly (set_lastEdgeChunkSendX lx p)).
  split; [exact R|].
  split; [now apply lookup_put|]. split; [reflexivity|].
  split; [exact Hx|]. split; [exact Hy|].
  apply (sendRequiredEdgeChunks_near _ r
           (set_lastEdgeChunkSendY ly (set_lastEdgeChunkSendX lx p)));
    [now apply lookup_put| |]; cbn; fold px py cs; lia.
Qed.
End Settled.

(** A new player stands where its last chunks were sent. *)
Lemma sendRequiredEdgeChunks_within_reach_witness :
  sendRequiredEdgeChunks (cfg := sampleConfig) 0%nat
    (worldOf [initialPlayer 1] (stopped 0))
  = (Ok tt, worldOf [initialPlayer 1] (stopped 0)).
Proof.
  apply (sendRequiredEdgeChunks_within_reach (cfg := sampleConfig)
           (worldOf [initialPlayer 1] (stopped 0)) 0%nat (initialPlayer 1)
           eq_refl); cbn; lia.
Defined.

(** A player far from (20,20), at (60,70): one run settles it. *)
Lemma sendRequiredEdgeChunks_settles_witness :
  exists w' p',
    sendRequiredEdgeChunks (cfg := sampleConfig) 0%nat
      (worldOf [standingAt (Vec2.mk 60 70) 1] (stopped 0)) = (Ok tt, w')
    /\ players w' !! 0%nat = Some p'
    /\ sendRequiredEdgeChunks (cfg := sampleConfig) 0%nat w' = (Ok tt, w').
Proof.
  destruct (sendRequiredEdgeChunks_settles (cfg := sampleConfig)
              (worldOf [standingAt (Vec2.mk 60 70) 1] (stopped 0)) 0%nat
              (standingAt (Vec2.mk 60 70) 1) eq_refl eq_refl)
    as (w' & p' & R & E & _ & _ & _ & R').
  exists w', p'. split; [exact R|]. split; [exact E|exact R'].
Defined.

(** ** What the skin disambiguation does guarantee *)

Section SkinRange.
Context {cfg : Config} {util : Util} {Arena : Type} {ops : ArenaOps Arena}.
Implicit Types (w : World Arena) (this other : ref) (me o : Player).

(** X15: For at least two skins, a player id that is not negative and skin
    ids below [SKINS_COUNT]: [skinIdForPlayer] changes nothing and returns
    a skin id below [SKINS_COUNT]; it is the own skin id unless another
    player has the same one, and then it is never one less than that
    player's skin id. *)
Theorem skinIdForPlayer_guarantees w this other me o :
  players w !! this = Some me -> players w !! other = Some o ->
  2 <= SKINS_COUNT -> 0 <= id me ->
  0 <= skinId me < SKINS_COUNT -> 0 <= skinId o < SKINS_COUNT ->
  exists v,
    skinIdForPlayer this other w = (Ok v, w)
    /\ 0 <= v < SKINS_COUNT
    /\ (skinId me <> skinId o \/ other = this -> v = skinId me)
    /\ (skinId me = skinId o -> other <> this -> v <> skinId o - 1).
Proof.
  intros Hme Ho HN Hid Hs Hso.
  destruct (skinIdForPlayer_reads_only w this other me o Hme Ho) as [v R].
  exists v. split; [exact R|].
  split;
    [exact (skinIdForPlayer_range w this other me o v Hme Ho HN Hid Hs Hso R)
    |].
  split.
  - intros D. rewrite (skinIdForPlayer_own w this other me o Hme Ho D) in R.
    congruence.
  - intros S N. revert R. unfold skinIdForPlayer.
    rewrite run_bind, (getPlayer_ok _ _ _ Hme).
    rewrite run_bind, (getPlayer_ok _ _ _ Ho). cbv beta iota.
    rewrite S, Z.eqb_refl, (bool_decide_eq_false_2 _ N). cbn [negb orb].
    destruct (Z.geb_spec (Z.rem (id me) (SKINS_COUNT - 1)) (skinId o - 1));
      rewrite run_ret; intros [= <-]; lia.
Qed.
End SkinRange.

(** Players 3 and 2 of the constructor, 13 skins: player 3 is shown to
    player 2 in skin 4. *)
Lemma skinIdForPlayer_guarantees_witness :
  exists v,
    skinIdForPlayer (cfg := sampleConfig) 0%nat 1%nat
      (worldOf [initialPlayer 3; initialPlayer 2] (stopped 0))
    = (Ok v, worldOf [initialPlayer 3; initialPlayer 2] (stopped 0))
    /\ 0 <= v < 13.
Proof.
  destruct (skinIdForPlayer_guarantees (cfg := sampleConfig)
              (worldOf [initialPlayer 3; initialPlayer 2] (stopped 0))
              0%nat 1%nat (initialPlayer 3) (initialPlayer 2)
              eq_refl eq_refl ltac:(cbn; lia) ltac:(cbn; lia)
              ltac:(cbn; lia) ltac:(cbn; lia))
    as (v & R & B & _).
  exists v. split; [exact R|exact B].
Defined.

(** ** Computations that keep to a policy *)

Section Policies.
Context {cfg : Config} {util : Util} {Arena : Type} {ops : ArenaOps Arena}.
Context (π : Policy Arena) {lawful : Lawful π}.
Implicit Types (w : World Arena) (r q : ref) (p a : Player).

Lemma evolves_refl w : evolves π w w.
Proof.
  repeat split.
  - intros q a a' E E'. assert (a' = a) as -> by congruence.
    apply playerStep_refl.
  - exists []. now rewrite app_nil_r.
  - apply arenaStep_refl.
  - apply readsStep_refl.
Qed.

Lemma evolves_trans w1 w2 w3 :
  evolves π w1 w2 -> evolves π w2 w3 -> evolves π w1 w3.
Proof.
  intros (L1 & P1 & (e1 & G1 & F1) & A1 & C1 & R1)
         (L2 & P2 & (e2 & G2 & F2) & A2 & C2 & R2).
  repeat split.
  - congruence.
  - intros q a a' E E'.
    destruct (lookup_lt_is_Some_2 (players w2) q) as [b Eb].
    { rewrite L1. eapply lookup_lt_Some, E. }
    eapply playerStep_trans; eauto.
  - exists (e1 ++ e2). split.
    + rewrite G2, G1. now rewrite app_assoc.
    + now apply Forall_app.
  - eapply arenaStep_trans; eassumption.
  - congruence.
  - eapply readsStep_trans; eassumption.
Qed.

Lemma Keeps_ret {A} (x : A) : Keeps π (mret x : M Arena A).
Proof. intros w. split; [apply evolves_refl|discriminate]. Qed.

Lemma Keeps_throw {A} msg :
  abortOk π (Thrown msg) -> Keeps π (throw msg : M Arena A).
Proof.
  intros H w. split; [apply evolves_refl|].
  intros e [= <-]. exact H.
Qed.

Lemma Keeps_outOfFuel {A} :
  abortOk π OutOfFuel -> Keeps π (outOfFuel : M Arena A).
Proof.
  intros H w. split; [apply evolves_refl|].
  intros e [= <-]. exact H.
Qed.

Lemma Keeps_liftOutcome {A} (o : Outcome A) :
  (forall e, o = Stop e -> abortOk π e) ->
  Keeps π (liftOutcome o : M Arena A).
Proof. intros H w. split; [apply evolves_refl|exact H]. Qed.

Lemma Keeps_getPlayer r :
  abortOk π Dangling -> Keeps π (getPlayer r : M Arena Player).
Proof.
  intros H w. unfold getPlayer.
  destruct (players w !! r); (split; [apply evolves_refl|]).
  - discriminate.
  - intros e [= <-]. exact H.
Qed.

Lemma Keeps_getArena : Keeps π (getArena : M Arena Arena).
Proof. intros w. split; [apply evolves_refl|discriminate]. Qed.

Lemma Keeps_getPlayers : Keeps π (getPlayers : M Arena (list Player)).
Proof. intros w. split; [apply evolves_refl|discriminate]. Qed.

Lemma Keeps_bind {A B} (m : M Arena A) (k : A -> M Arena B) :
  Keeps π m -> (forall x, Keeps π (k x)) -> Keeps π (m ≫= k).
Proof.
  intros Hm Hk w. rewrite run_bind. destruct (Hm w) as [Ev Ab].
  destruct (m w) as [[x|e] w1]; cbn [fst snd] in *.
  - destruct (Hk x w1) as [Ev' Ab']. split; [|exact Ab'].
    eapply evolves_trans; eassumption.
  - split; [exact Ev|]. intros e' [= <-]. now apply Ab.
Qed.

Lemma evolves_insert w r p p' :
  players w !! r = Some p -> playerStep π r p p' ->
  evolves π w (set_players (<[r := p']> (players w)) w).
Proof.
  intros E H. repeat split; cbn.
  - apply length_insert.
  - intros q a a' Ea Ea'. destruct (decide (r = q)) as [->|N].
    + rewrite list_lookup_insert_eq in Ea' by (eapply lookup_lt_Some, E).
      assert (a = p) as -> by congruence. injection Ea' as <-. exact H.
    + rewrite list_lookup_insert_ne in Ea' by exact N.
      assert (a' = a) as -> by congruence. apply playerStep_refl.
  - exists []. now rewrite app_nil_r.
  - apply arenaStep_refl.
  - apply readsStep_refl.
Qed.

Lemma Keeps_update r f :
  abortOk π Dangling -> (forall a, playerStep π r a (f a)) ->
  Keeps π (update r f : M Arena unit).
Proof.
  intros Hd H w. unfold update.
  destruct (players w !! r) as [p|] eqn:E; cbn [fst snd].
  - split; [|discriminate]. now apply (evolves_insert w r p).
  - split; [apply evolves_refl|]. intros e [= <-]. exact Hd.
Qed.

Lemma Keeps_emit e : eventOk π e -> Keeps π (emit e : M Arena unit).
Proof.
  intros H w. split; [|discriminate]. repeat split; cbn.
  - intros q a a' E E'. assert (a' = a) as -> by congruence.
    apply playerStep_refl.
  - exists [e]. split; [reflexivity|]. now constructor.
  - apply arenaStep_refl.
  - apply readsStep_refl.
Qed.

Lemma Keeps_callArena e f :
  eventOk π e -> (forall x, arenaStep π x (f x)) ->
  Keeps π (callArena e f : M Arena unit).
Proof.
  intros H Hf w. split; [|discriminate]. repeat split; cbn.
  - intros q a a' E E'. assert (a' = a) as -> by congruence.
    apply playerStep_refl.
  - exists [e]. split; [reflexivity|]. now constructor.
  - apply Hf.
  - apply readsStep_refl.
Qed.

Lemma Keeps_performance_now :
  (forall n, readsStep π n (S n)) -> Keeps π (performance_now : M Arena Q).
Proof.
  intros H w. split; [|discriminate]. repeat split; cbn.
  - intros q a a' E E'. assert (a' = a) as -> by congruence.
    apply playerStep_refl.
  - exists []. now rewrite app_nil_r.
  - apply arenaStep_refl.
  - apply H.
Qed.

Lemma Keeps_forEach {A} (l : list A) (body : A -> M Arena unit) :
  (forall x, Keeps π (body x)) -> Keeps π (forEach l body).
Proof.
  intros H. induction l as [|x l IH]; cbn [forEach].
  - apply Keeps_ret.
  - apply Keeps_bind; [apply H|intros _; exact IH].
Qed.

(** [die] assigns the death state only where there is none. *)
Lemma Keeps_die r ty sp :
  abortOk π Dangling ->
  (forall a t,
     lastDeathState a = None ->
     playerStep π r a
       (set_lastDeathState (Some {| dieTime := t; type := ty |}) a)) ->
  eventOk π (broadcastPlayerDeath r sp) ->
  (forall n, readsStep π n (S n)) ->
  Keeps π (die r ty sp : M Arena unit).
Proof.
  intros Hd Hp He Hr w.
  destruct (players w !! r) as [p|] eqn:E.
  - rewrite (die_run _ _ _ _ _ E). cbn [fst snd]. split; [|discriminate].
    destruct (dead p) eqn:D; [apply evolves_refl|].
    assert (N : lastDeathState p = None).
    { unfold dead in D. now destruct (lastDeathState p). }
    repeat split; cbn.
    + apply length_insert.
    + intros q a a' Ea Ea'. destruct (decide (r = q)) as [->|Nq].
      * rewrite list_lookup_insert_eq in Ea' by (eapply lookup_lt_Some, E).
        assert (a = p) as -> by congruence. injection Ea' as <-.
        now apply Hp.
      * rewrite list_lookup_insert_ne in Ea' by exact Nq.
        assert (a' = a) as -> by congruence. apply playerStep_refl.
    + exists [broadcastPlayerDeath r sp]. split; [reflexivity|].
      now constructor.
    + apply arenaStep_refl.
    + apply Hr.
  - assert (G : getPlayer r w = (Stop Dangling, w)).
    { unfold getPlayer. now rewrite E. }
    unfold die. rewrite run_bind, G. cbn [fst snd].
    split; [apply evolves_refl|]. intros e [= <-]. exact Hd.
Qed.
End Policies.

(** A computation keeps to every policy that allows more. *)
Lemma Keeps_weaken {Arena A} (π π' : Policy Arena) (m : M Arena A) :
  (forall q a a', playerStep π q a a' -> playerStep π' q a a') ->
  (forall e, eventOk π e -> eventOk π' e) ->
  (forall x y, arenaStep π x y -> arenaStep π' x y) ->
  (forall n k, readsStep π n k -> readsStep π' n k) ->
  (forall e, abortOk π e -> abortOk π' e) ->
  Keeps π m -> Keeps π' m.
Proof.
  intros Hp He Ha Hr Hb H w.
  destruct (H w) as [(L & P & (evs & G & F) & A1 & C & R) Ab].
  split; [|intros e E; apply Hb, Ab, E].
  split; [exact L|]. split.
  { intros q a a' E E'. eapply Hp, P; eassumption. }
  split.
  { exists evs. split; [exact G|].
    eapply Forall_impl; [exact F|exact He]. }
  split; [apply Ha, A1|]. split; [exact C|apply Hr, R].
Qed.

Ltac lawful := try match goal with |- Lawful _ => exact _ end.

(** Takes a computation apart along its binds and branches; [solver]
    proves that the policy allows each assignment, call and abort. *)
Ltac keeps solver :=
  repeat first
    [ simple apply Keeps_bind; lawful; [|intros ?]
    | simple apply Keeps_ret; lawful
    | simple apply Keeps_throw; lawful; solver
    | simple apply Keeps_outOfFuel; lawful; solver
    | simple apply Keeps_getPlayer; lawful; solver
    | simple apply Keeps_getArena; lawful
    | simple apply Keeps_getPlayers; lawful
    | simple apply Keeps_update; lawful; [solver|intros ?; solver]
    | simple apply Keeps_emit; lawful; solver
    | simple apply Keeps_callArena; lawful; [solver|intros ?; solver]
    | simple apply Keeps_performance_now; lawful; intros ?; solver
    | simple apply Keeps_die; lawful;
      [solver|intros ? ? ?; solver|solver|intros ?; solver]
    | simple apply Keeps_forEach; lawful; intros ?
    | progress cbv zeta
    | match goal with
      | |- Keeps _ (if ?c then _ else _) => destruct c
      | |- Keeps _ (match ?x with _ => _ end) => destruct x
      end ].

Ltac allowed :=
  cbn; unfold latched; cbn; repeat split; intros;
  first [assumption | congruence | lia | tauto].

(** ** The frames of the handlers *)

Section Frames.
Context {cfg : Config} {util : Util} {Arena : Type} {ops : ArenaOps Arena}.
Implicit Types (w : World Arena) (r q this : ref) (p a : Player).

#[export] Instance collisionPolicy_lawful this :
  Lawful (collisionPolicy (Arena := Arena) this).
Proof.
  split; cbn; try (intros; lia); try congruence.
  - intros q a. repeat split; intros; assumption.
  - intros q a b c (E1 & O1 & D1) (E2 & O2 & D2). split; [congruence|].
    split.
    + intros N. destruct (O1 N) as (? & ? & ?).
      destruct (O2 N) as (? & ? & ?). repeat split; congruence.
    + intros ds D. apply D2, D1, D.
Qed.

#[export] Instance tilePolicy_lawful this :
  Lawful (tilePolicy (Arena := Arena) this).
Proof.
  split; cbn; try tauto; try congruence.
  intros q a b c (E1 & O1) (E2 & O2). split; [congruence|].
  intros N. rewrite (O2 N). exact (O1 N).
Qed.

#[export] Instance intentPolicy_lawful this :
  Lawful (intentPolicy (Arena := Arena) this).
Proof.
  split; cbn; try tauto; try congruence.
  intros q a b c (E1 & O1) (E2 & O2). split; [congruence|].
  intros N. rewrite (O2 N). exact (O1 N).
Qed.

Lemma latched_refl a : latched a a.
Proof. unfold latched. tauto. Qed.

Lemma latched_trans a b c : latched a b -> latched b c -> latched a c.
Proof.
  intros (D1 & P1 & T1) (D2 & P2 & T2). repeat split; auto.
Qed.

#[export] Instance handlerPolicy_lawful :
  Lawful (handlerPolicy (Arena := Arena)).
Proof.
  split; cbn; try tauto; try (intros; lia).
  - intros _ a. repeat split; try reflexivity; apply latched_refl.
  - intros _ a b c (? & ? & ? & ? & ? & ? & L1) (? & ? & ? & ? & ? & ? & L2).
    repeat split; try congruence;
      apply (latched_trans a b c L1 L2).
Qed.

#[export] Instance publicPolicy_lawful :
  Lawful (publicPolicy (Arena := Arena)).
Proof.
  split; cbn; try tauto; try (intros; lia).
  - intros _ a. repeat split; try reflexivity; apply latched_refl.
  - intros _ a b c (? & ? & L1) (? & ? & L2).
    repeat split; try congruence;
      apply (latched_trans a b c L1 L2).
Qed.

(** *** The collision handling *)

Lemma collision_checkHit this player :
  Keeps (collisionPolicy (Arena := Arena) this) (checkHit this player).
Proof.
  unfold checkHit. keeps allowed.
  apply Keeps_liftOutcome; lawful. intros e E.
  destruct (pointIsInTrail_total x0 (currentPosition x)
              (negb (bool_decide (player = this)))) as [b Eb].
  congruence.
Qed.

Lemma collision_sendRequiredEdgeChunks this :
  Keeps (collisionPolicy (Arena := Arena) this)
    (sendRequiredEdgeChunks this).
Proof. unfold sendRequiredEdgeChunks. keeps allowed. Qed.

Lemma collision_currentPositionChanged this :
  Keeps (collisionPolicy (Arena := Arena) this)
    (currentPositionChanged this).
Proof.
  unfold currentPositionChanged, getOverlappingTrailBoundsPlayers.
  keeps allowed.
  - apply collision_checkHit.
  - apply collision_sendRequiredEdgeChunks.
Qed.

(** *** The tile update *)

Lemma tile_updateCurrentTile this :
  Keeps (tilePolicy (Arena := Arena) this) (updateCurrentTile this).
Proof. unfold updateCurrentTile. keeps allowed. Qed.

(** *** The movement intents *)

Lemma intent_drainMovementQueue fuel this :
  Keeps (intentPolicy (Arena := Arena) this)
    (drainMovementQueue fuel this).
Proof.
  induction fuel as [|fuel IH]; cbn [drainMovementQueue]; keeps allowed;
    exact IH.
Qed.

Lemma intent_clientPosUpdateRequested fuel this d v :
  Keeps (intentPolicy (Arena := Arena) this)
    (clientPosUpdateRequested fuel this d v).
Proof.
  unfold clientPosUpdateRequested. keeps allowed.
  apply intent_drainMovementQueue.
Qed.
End Frames.

(** The equations between the fields of two players that are equal up to
    blanked fields. *)
Ltac fields E :=
  pose proof (f_equal id E); pose proof (f_equal skinId E);
  pose proof (f_equal currentTileType E);
  pose proof (f_equal currentPosition E);
  pose proof (f_equal lastEdgeChunkSendX E);
  pose proof (f_equal lastEdgeChunkSendY E);
  pose proof (f_equal nextTileProgress E);
  pose proof (f_equal currentDirection E);
  pose proof (f_equal trailVertices E);
  pose proof (f_equal trailBounds E);
  pose proof (f_equal movementQueue E);
  pose proof (f_equal lastDeathState E);
  pose proof (f_equal permanentlyDead E);
  pose proof (f_equal permanentlyDieTime E);
  pose proof (f_equal allMyTilesCleared E);
  cbn in * |-.

(** ** What ticks and intents keep *)

Section Lifetimes.
Context {cfg : Config} {util : Util} {Arena : Type} {ops : ArenaOps Arena}.
Implicit Types (w : World Arena) (r q this : ref) (p a : Player).

#[export] Instance tickPolicy_lawful this :
  Lawful (tickPolicy (Arena := Arena) this).
Proof.
  split; cbn; try tauto; try (intros; lia).
  intros q a b c H1 H2 N. destruct (H1 N) as [E1 D1].
  destruct (H2 N) as [E2 D2]. split; [congruence|].
  intros ds D. apply D2, D1, D.
Qed.

Lemma evolves_lookup (π : Policy Arena) w w' q a :
  evolves π w w' -> players w !! q = Some a ->
  exists a', players w' !! q = Some a' /\ playerStep π q a a'.
Proof.
  intros (L & P & _) E.
  destruct (lookup_lt_is_Some_2 (players w') q) as [a' E'].
  { rewrite L. eapply lookup_lt_Some, E. }
  exists a'. split; [exact E'|]. eapply P; eassumption.
Qed.

Lemma evolves_newEvents (π : Policy Arena) w w' :
  evolves π w w' -> Forall (eventOk π) (newEvents w w').
Proof.
  intros (_ & _ & (evs & G & F) & _).
  now rewrite (newEvents_app _ _ _ G).
Qed.

(** *** The handlers of a tick *)

Lemma handler_clearAllMyTiles r :
  Keeps (handlerPolicy (Arena := Arena)) (clearAllMyTiles r).
Proof. unfold clearAllMyTiles. keeps allowed. Qed.

Lemma handler_permanentlyDie r :
  Keeps (handlerPolicy (Arena := Arena)) (permanentlyDie r).
Proof.
  unfold permanentlyDie. keeps allowed. apply handler_clearAllMyTiles.
Qed.

Lemma handler_checkDeathTimers r :
  Keeps (handlerPolicy (Arena := Arena)) (checkDeathTimers r).
Proof.
  unfold checkDeathTimers. keeps allowed. apply handler_permanentlyDie.
Qed.

Lemma handler_currentPositionChanged this :
  Keeps (handlerPolicy (Arena := Arena)) (currentPositionChanged this).
Proof.
  apply (Keeps_weaken (collisionPolicy this));
    [..|apply collision_currentPositionChanged]; cbn; try tauto.
  - intros q a a' (E & _ & D). fields E. unfold latched.
    repeat split; try congruence. exact D.
  - intros e ->. discriminate.
Qed.

Lemma handler_updateCurrentTile this :
  Keeps (handlerPolicy (Arena := Arena)) (updateCurrentTile this).
Proof.
  apply (Keeps_weaken (tilePolicy this));
    [..|apply tile_updateCurrentTile]; cbn; try tauto.
  - intros q a a' (E & _). fields E. unfold latched.
    repeat split; congruence.
  - intros n k ->. lia.
  - intros e [->| ->]; discriminate.
Qed.

(** *** Ticks under a policy *)

Section Tick.
Context (π : Policy Arena) {lawful : Lawful π} (this : ref).
Hypothesis dangling : abortOk π Dangling.
Hypothesis fuelled : abortOk π OutOfFuel.
Hypothesis progress :
  forall a v, playerStep π this a (set_nextTileProgress v a).
Hypothesis position :
  forall a v, playerStep π this a (set_currentPosition v a).
Hypothesis collisions : Keeps π (currentPositionChanged this).
Hypothesis tiles : Keeps π (updateCurrentTile this).
Hypothesis timers : Keeps π (checkDeathTimers this).

Lemma Keeps_moveOneTile : Keeps π (moveOneTile this).
Proof.
  unfold moveOneTile.
  keeps ltac:(first [assumption | apply progress | apply position]);
    assumption.
Qed.

Lemma Keeps_moveWhileProgress fuel :
  Keeps π (moveWhileProgress fuel this).
Proof.
  induction fuel as [|fuel IH]; cbn [moveWhileProgress];
    keeps ltac:(assumption);
    first [apply Keeps_moveOneTile | exact IH].
Qed.

Lemma Keeps_loop fuel now dt : Keeps π (loop fuel this now dt).
Proof.
  unfold loop.
  keeps ltac:(first [assumption | apply progress]);
    first [apply Keeps_moveWhileProgress | assumption].
Qed.
End Tick.

(** *** What every method keeps *)

Lemma handler_public {A} (m : M Arena A) :
  Keeps (handlerPolicy (Arena := Arena)) m ->
  Keeps (publicPolicy (Arena := Arena)) m.
Proof.
  apply Keeps_weaken; cbn; try tauto.
Qed.

Lemma public_loop fuel this now dt :
  Keeps (publicPolicy (Arena := Arena)) (loop fuel this now dt).
Proof.
  apply Keeps_loop; try exact _; try exact I.
  - intros a v. allowed.
  - intros a v. allowed.
  - apply handler_public, handler_currentPositionChanged.
  - apply handler_public, handler_updateCurrentTile.
  - apply handler_public, handler_checkDeathTimers.
Qed.

Lemma public_die r ty sp :
  Keeps (publicPolicy (Arena := Arena)) (die r ty sp).
Proof. keeps allowed. Qed.

Lemma public_removedFromGame r :
  Keeps (publicPolicy (Arena := Arena)) (removedFromGame r).
Proof. apply handler_public, handler_clearAllMyTiles. Qed.

Lemma public_clientPosUpdateRequested fuel this d v :
  Keeps (publicPolicy (Arena := Arena))
    (clientPosUpdateRequested fuel this d v).
Proof.
  apply (Keeps_weaken (intentPolicy this));
    [..|apply intent_clientPosUpdateRequested]; cbn; try tauto.
  - intros q a a' (E & _). fields E. unfold latched.
    repeat split; congruence.
  - intros n k ->. lia.
Qed.

(** *** What a tick does to the other players *)

Lemma tick_clearAllMyTiles this :
  Keeps (tickPolicy (Arena := Arena) this) (clearAllMyTiles this).
Proof. unfold clearAllMyTiles. keeps allowed. Qed.

Lemma tick_permanentlyDie this :
  Keeps (tickPolicy (Arena := Arena) this) (permanentlyDie this).
Proof.
  unfold permanentlyDie. keeps allowed. apply tick_clearAllMyTiles.
Qed.

Lemma tick_checkDeathTimers this :
  Keeps (tickPolicy (Arena := Arena) this) (checkDeathTimers this).
Proof.
  unfold checkDeathTimers. keeps allowed. apply tick_permanentlyDie.
Qed.

Lemma tick_loop fuel this now dt :
  Keeps (tickPolicy (Arena := Arena) this) (loop fuel this now dt).
Proof.
  apply Keeps_loop; try exact _; try exact I.
  - intros a v. allowed.
  - intros a v. allowed.
  - apply (Keeps_weaken (collisionPolicy this));
      [..|apply collision_currentPositionChanged]; cbn; try tauto.
    intros q a a' (E & O & D) N. destruct (O N) as (B & X & Y).
    split; [|exact D]. fields E. clear E O D.
    destruct a, a'; cbn in *. subst. reflexivity.
  - apply (Keeps_weaken (tilePolicy this));
      [..|apply tile_updateCurrentTile]; cbn; try tauto.
    + intros q a a' (_ & O) N. rewrite (O N). now split.
    + intros n k ->. lia.
  - apply tick_checkDeathTimers.
Qed.
End Lifetimes.

(** ** Footprints, histories and the rounds of a tick *)

Section Footprints.
Context {cfg : Config} {util : Util} {Arena : Type} {ops : ArenaOps Arena}.
Implicit Types (w : World Arena) (r q this : ref) (p a : Player).

Lemma collision_spares this q a a' :
  playerStep (collisionPolicy (Arena := Arena) this) q a a' -> q <> this ->
  set_lastDeathState None a' = set_lastDeathState None a.
Proof.
  intros (E & O & _) N. destruct (O N) as (B & X & Y). fields E.
  clear E O. destruct a, a'; cbn in *. subst. reflexivity.
Qed.

(** X16: The collision handling of a move of an existing player returns
    normally. It leaves the arena and the clock alone. Of every player it
    changes at most the death state, the trail bounds and the places of the
    last edge chunks, of the players other than the mover at most the death
    state, and a death state that was recorded is kept. Its calls are death
    announcements, hit lines with the mover as the one who hit, and chunks
    for the mover. *)
Theorem currentPositionChanged_footprint w this p :
  players w !! this = Some p ->
  let w' := snd (currentPositionChanged this w) in
  fst (currentPositionChanged this w) = Ok tt
  /\ arena w' = arena w /\ clock w' = clock w
  /\ (forall q a,
        players w !! q = Some a ->
        exists a',
          players w' !! q = Some a'
          /\ besidesCollisions a' = besidesCollisions a
          /\ (q <> this ->
              set_lastDeathState None a' = set_lastDeathState None a)
          /\ (forall ds, lastDeathState a = Some ds ->
                         lastDeathState a' = Some ds))
  /\ Forall (eventOk (collisionPolicy (Arena := Arena) this))
       (newEvents w w').
Proof.
  intros E w'. subst w'.
  pose proof (currentPositionChanged_run w this p E) as H. cbv zeta in H.
  destruct H as (w1 & evs & R & _).
  destruct (collision_currentPositionChanged this w) as [Ev _].
  rewrite R in *. cbn [fst snd] in *.
  split; [reflexivity|].
  pose proof Ev as (_ & _ & _ & A1 & C & _). cbn in A1.
  split; [now symmetry|]. split; [exact C|]. split.
  - intros q a Ea.
    destruct (evolves_lookup _ _ _ q a Ev Ea) as (a' & Ea' & S).
    exists a'. split; [exact Ea'|]. split; [apply S|].
    split; [apply (collision_spares this q a a' S)|apply S].
  - apply (evolves_newEvents _ _ _ Ev).
Qed.

(** X17: A movement intent, whatever the queue holds and however long the
    loop runs, leaves the arena and the clock alone and does not read the
    clock. Of the player it changes at most the position, the direction,
    the trail and the queue, and the other players are not changed. All its
    calls announce the state of the player, and it throws nothing. *)
Theorem clientPosUpdateRequested_footprint w this fuel d v :
  let w' := snd (clientPosUpdateRequested fuel this d v w) in
  arena w' = arena w /\ clock w' = clock w /\ reads w' = reads w
  /\ (forall q a,
        players w !! q = Some a ->
        exists a',
          players w' !! q = Some a'
          /\ besidesIntent a' = besidesIntent a
          /\ (q <> this -> a' = a))
  /\ Forall (fun e => e = broadcastPlayerState this) (newEvents w w')
  /\ (forall msg,
        fst (clientPosUpdateRequested fuel this d v w) <> Stop (Thrown msg)).
Proof.
  intros w'. subst w'.
  destruct (intent_clientPosUpdateRequested fuel this d v w) as [Ev Ab].
  pose proof Ev as (_ & _ & _ & A1 & C & Rd). cbn in A1, Rd.
  split; [now symmetry|]. split; [exact C|]. split; [now symmetry|].
  split; [|split].
  - intros q a Ea.
    destruct (evolves_lookup _ _ _ q a Ev Ea) as (a' & Ea' & S).
    exists a'. split; [exact Ea'|exact S].
  - apply (evolves_newEvents _ _ _ Ev).
  - intros msg E. destruct (Ab _ E); discriminate.
Qed.

Lemma players_newPlayer w id0 :
  players (snd (newPlayer id0 w)) = players w ++ [initialPlayer id0].
Proof. reflexivity. Qed.

(** X18: Through any sequence of calls of the constructor and of the public
    methods, on any players and whatever the outcomes, a player stays in
    the store with its id and its skin; a death state that was recorded is
    kept with its time and type, and permanent death and the release of the
    tiles are not undone. *)
Theorem calls_keep_identity_and_latches w w' q a :
  calls w w' -> players w !! q = Some a ->
  exists a',
    players w' !! q = Some a'
    /\ id a' = id a /\ skinId a' = skinId a /\ latched a a'.
Proof.
  intros H E.
  assert (step : forall w1 w2 b,
            players w1 !! q = Some b ->
            evolves (publicPolicy (Arena := Arena)) w1 w2 ->
            id b = id a /\ skinId b = skinId a /\ latched a b ->
            exists a',
              players w2 !! q = Some a'
              /\ id a' = id a /\ skinId a' = skinId a /\ latched a a').
  { intros w1 w2 b Eb Ev (I1 & I2 & L).
    destruct (evolves_lookup _ _ _ q b Ev Eb) as (a' & Ea' & J1 & J2 & L').
    exists a'. split; [exact Ea'|].
    split; [congruence|]. split; [congruence|].
    exact (latched_trans a b a' L L'). }
  induction H as [|w' id0 H IH|w' fuel r d v H IH|w' fuel r now dt H IH
                  |w' r ty sp H IH|w' r H IH].
  - exists a. split; [exact E|]. split; [reflexivity|].
    split; [reflexivity|apply latched_refl].
  - destruct IH as (b & Eb & I). exists b. split; [|exact I].
    rewrite players_newPlayer. now apply lookup_app_l_Some.
  - destruct IH as (b & Eb & I).
    exact (step _ _ b Eb
             (proj1 (public_clientPosUpdateRequested fuel r d v w')) I).
  - destruct IH as (b & Eb & I).
    exact (step _ _ b Eb (proj1 (public_loop fuel r now dt w')) I).
  - destruct IH as (b & Eb & I).
    exact (step _ _ b Eb (proj1 (public_die r ty sp w')) I).
  - destruct IH as (b & Eb & I).
    exact (step _ _ b Eb (proj1 (public_removedFromGame r w')) I).
Qed.

(** X19: A tick of one player changes of any other player at most the death
    state, and only by recording a death where there was none. *)
Theorem loop_spares_other_players w this fuel (now dt : Q) q a :
  q <> this -> players w !! q = Some a ->
  exists a',
    players (snd (loop fuel this now dt w)) !! q = Some a'
    /\ set_lastDeathState None a' = set_lastDeathState None a
    /\ (forall ds, lastDeathState a = Some ds ->
                   lastDeathState a' = Some ds).
Proof.
  intros N E.
  destruct (tick_loop fuel this now dt w) as [Ev _].
  destruct (evolves_lookup _ _ _ q a Ev E) as (a' & Ea' & S).
  exists a'. split; [exact Ea'|exact (S N)].
Qed.

(** *** The rounds of the tick loop *)

Lemma handler_lookup {A} (m : M Arena A) w r p :
  Keeps (handlerPolicy (Arena := Arena)) m ->
  players w !! r = Some p ->
  exists p',
    players (snd (m w)) !! r = Some p'
    /\ nextTileProgress p' = nextTileProgress p
    /\ fst (m w) <> Stop OutOfFuel.
Proof.
  intros K E. destruct (K w) as [Ev Ab].
  destruct (evolves_lookup _ _ _ r p Ev E) as (p' & E' & S).
  exists p'. split; [exact E'|]. split; [apply S|].
  intros F. exact (Ab _ F eq_refl).
Qed.

(** One round takes one unit of progress, whatever its outcome. *)
Lemma moveOneTile_progress w r p :
  players w !! r = Some p ->
  exists p',
    players (snd (moveOneTile r w)) !! r = Some p'
    /\ nextTileProgress p' = (nextTileProgress p - 1)%Q
    /\ fst (moveOneTile r w) <> Stop OutOfFuel.
Proof.
  intros E. pose proof (valid_lookup _ _ _ E) as V.
  set (p2 := set_currentPosition
               (stepPosition (currentDirection p) (currentPosition p))
               (set_nextTileProgress (nextTileProgress p - 1)%Q p)).
  assert (R : moveOneTile r w
              = (currentPositionChanged r ≫= fun _ => updateCurrentTile r)
                  (put r p2 w)).
  { rewrite <- (put_id _ _ _ E) at 1. unfold moveOneTile.
    rewrite run_bind, update_put by exact V. cbv beta iota.
    rewrite run_bind, update_put by exact V. reflexivity. }
  rewrite R.
  apply (handler_lookup _ (put r p2 w) r p2); [|apply lookup_put, V].
  apply Keeps_bind; [exact _|apply handler_currentPositionChanged|].
  intros _. apply handler_updateCurrentTile.
Qed.

Lemma Qgtb_lt (a b : Q) : Qgtb a b = true -> (b < a)%Q.
Proof.
  unfold Qgtb. intros H. apply Qnot_le_lt. intros L.
  apply Qle_bool_iff in L. rewrite L in H. discriminate.
Qed.

Lemma Qgtb_le (a b : Q) : Qgtb a b = false -> (a <= b)%Q.
Proof.
  unfold Qgtb. intros H. apply Qle_bool_iff.
  now destruct (Qle_bool a b).
Qed.

Lemma inject_S (n : nat) :
  (inject_Z (Z.of_nat (S n)) == inject_Z (Z.of_nat n) + 1)%Q.
Proof.
  rewrite Nat2Z.inj_succ, <- Z.add_1_r, inject_Z_plus. reflexivity.
Qed.

(** When the loop ends by its test, the progress is at most 1 and not
    negative; with one unit of fuel per unit of progress above 1 it does
    end by its test. *)
Lemma moveWhileProgress_bound fuel : forall w r p,
  players w !! r = Some p ->
  ((nextTileProgress p <= inject_Z (Z.of_nat fuel) + 1)%Q ->
   fst (moveWhileProgress fuel r w) <> Stop OutOfFuel)
  /\ (fst (moveWhileProgress fuel r w) = Ok tt ->
      exists p',
        players (snd (moveWhileProgress fuel r w)) !! r = Some p'
        /\ (nextTileProgress p' <= 1)%Q
        /\ ((0 <= nextTileProgress p)%Q -> (0 <= nextTileProgress p')%Q)).
Proof.
  induction fuel as [|fuel IH]; intros w r p E.
  - cbn [moveWhileProgress]. rewrite run_bind, (getPlayer_ok _ _ _ E).
    destruct (Qgtb (nextTileProgress p) 1) eqn:G.
    + apply Qgtb_lt in G. cbn [fst snd]. split; [|discriminate].
      intros B. change (inject_Z (Z.of_nat 0)) with 0%Q in B. lra.
    + apply Qgtb_le in G. cbn [fst snd]. split; [discriminate|].
      intros _. exists p. split; [exact E|]. split; [exact G|tauto].
  - cbn [moveWhileProgress]. rewrite run_bind, (getPlayer_ok _ _ _ E).
    destruct (Qgtb (nextTileProgress p) 1) eqn:G.
    + apply Qgtb_lt in G. rewrite run_bind.
      destruct (moveOneTile_progress w r p E) as (p1 & E1 & P1 & F1).
      destruct (moveOneTile r w) as [[[]|e] w1]; cbn [fst snd] in *.
      * pose proof (inject_S fuel) as IS.
        destruct (IH w1 r p1 E1) as [F2 R2]. split.
        { intros B. apply F2. rewrite P1. lra. }
        intros O. destruct (R2 O) as (p' & E' & U & L). exists p'.
        split; [exact E'|]. split; [exact U|].
        intros _. apply L. rewrite P1. lra.
      * split; [intros _; exact F1|discriminate].
    + apply Qgtb_le in G. cbn [fst snd]. split; [discriminate|].
      intros _. exists p. split; [exact E|]. split; [exact G|tauto].
Qed.

(** A tick of an existing player, by the test on direction and death. *)
Lemma loop_unfold w r p fuel (now dt : Q) :
  players w !! r = Some p ->
  loop fuel r now dt w
  = if negb (same (currentDirection p) Paused) && negb (dead p) then
      (moveWhileProgress fuel r ≫= fun _ => checkDeathTimers r)
        (put r
           (set_nextTileProgress
              (nextTileProgress p + dt * PLAYER_TRAVEL_SPEED)%Q p) w)
    else checkDeathTimers r w.
Proof.
  intros E. pose proof (valid_lookup _ _ _ E) as V.
  rewrite <- (put_id _ _ _ E) at 1. unfold loop.
  rewrite run_bind, getPlayer_put by exact V. cbv beta iota.
  rewrite run_bind.
  destruct (negb (same (currentDirection p) Paused) && negb (dead p)).
  - rewrite run_bind, update_put by exact V. reflexivity.
  - rewrite run_ret, put_id by exact E. reflexivity.
Qed.


(** X21: Between ticks the progress towards the next tile lies between 0
    and 1: a tick that returns normally, with a time step that is not
    negative, keeps it there. *)
Theorem loop_keeps_progress_in_range w r p fuel (now dt : Q) :
  players w !! r = Some p ->
  (0 <= nextTileProgress p)%Q -> (nextTileProgress p <= 1)%Q ->
  (0 <= dt * PLAYER_TRAVEL_SPEED)%Q ->
  fst (loop fuel r now dt w) = Ok tt ->
  exists p',
    players (snd (loop fuel r now dt w)) !! r = Some p'
    /\ (0 <= nextTileProgress p')%Q /\ (nextTileProgress p' <= 1)%Q.
Proof.
  intros E L U D. pose proof (valid_lookup _ _ _ E) as V.
  rewrite (loop_unfold w r p fuel now dt E).
  destruct (negb (same (currentDirection p) Paused) && negb (dead p)).
  - rewrite run_bind.
    set (p1 := set_nextTileProgress _ p).
    destruct (moveWhileProgress_bound fuel (put r p1 w) r p1
                (lookup_put _ _ _ V)) as [_ R].
    destruct (moveWhileProgress fuel r (put r p1 w)) as [[[]|e] w1];
      cbn [fst snd] in *; [|discriminate].
    intros O. destruct (R eq_refl) as (p2 & E2 & U2 & L2).
    destruct (handler_lookup _ w1 r p2 (handler_checkDeathTimers r) E2)
      as (p' & E' & P' & _).
    exists p'. split; [exact E'|]. rewrite P'. split; [|exact U2].
    apply L2. subst p1. cbn. lra.
  - intros O.
    destruct (handler_lookup _ w r p (handler_checkDeathTimers r) E)
      as (p' & E' & P' & _).
    exists p'. split; [exact E'|]. rewrite P'. now split.
Qed.
End Footprints.

(** The turn up at (25,20) of the player heading right: the arena is as
    it was. *)
Lemma clientPosUpdateRequested_footprint_witness :
  arena (snd (clientPosUpdateRequested 2 0%nat Up (Vec2.mk 25 20)
                (worldOf [trailingRight] (stopped 0))))
  = arena (worldOf [trailingRight] (stopped 0)).
Proof.
  exact (proj1 (clientPosUpdateRequested_footprint
                  (worldOf [trailingRight] (stopped 0)) 0%nat 2 Up
                  (Vec2.mk 25 20))).
Defined.

(** A player with a trail at (20,20), not on the edge and hit by no one:
    the handling returns normally. *)
Lemma currentPositionChanged_footprint_witness :
  fst (currentPositionChanged (cfg := sampleConfig) (util := sampleUtil)
         (ops := sampleArena) 0%nat
         (worldOf [trailingRight] (stopped 0)))
  = Ok tt.
Proof.
  exact (proj1 (currentPositionChanged_footprint
                  (cfg := sampleConfig) (util := sampleUtil)
                  (ops := sampleArena)
                  (worldOf [trailingRight] (stopped 0)) 0%nat trailingRight
                  eq_refl)).
Defined.

(** The player marked dead at time 0, after the ticks at 600 and 601: it
    is still player 1 with the death recorded at time 0. *)
Lemma calls_keep_identity_and_latches_witness :
  exists a',
    players (tick 601 16 (tick 600 16 deathAt0)) !! 0%nat = Some a'
    /\ id a' = 1 /\ skinId a' = 2
    /\ latched (markedDead 0 Self 1) a'.
Proof.
  apply (calls_keep_identity_and_latches
           (cfg := sampleConfig) (util := sampleUtil) (ops := sampleArena)
           deathAt0 (tick 601 16 (tick 600 16 deathAt0)) 0%nat
           (markedDead 0 Self 1)).
  - exact (calls_loop _ _ 4%nat 0%nat 601 16
             (calls_loop _ _ 4%nat 0%nat 600 16 (calls_none _))).
  - reflexivity.
Defined.

(** A mover at (2,9) heading down steps onto the trail of the player at
    the edge, which is dead already: that player is as it was. *)
Lemma loop_spares_other_players_witness :
  exists a',
    players
      (snd (loop (cfg := sampleConfig) (util := sampleUtil)
              (ops := sampleArena) 1 0%nat 0 200
              (worldOf [moverAbove; deadAtEdge] (stopped 0))))
      !! 1%nat = Some a'
    /\ set_lastDeathState None a' = set_lastDeathState None deadAtEdge
    /\ (forall ds, lastDeathState deadAtEdge = Some ds ->
                   lastDeathState a' = Some ds).
Proof.
  apply (loop_spares_other_players
           (cfg := sampleConfig) (util := sampleUtil) (ops := sampleArena)
           (worldOf [moverAbove; deadAtEdge] (stopped 0)) 0%nat 1 0 200
           1%nat deadAtEdge).
  - discriminate.
  - reflexivity.
Defined.


(** The same tick leaves a progress between 0 and 1. *)
Lemma loop_keeps_progress_in_range_witness :
  exists p',
    players
      (snd (loop (cfg := sampleConfig) (util := sampleUtil)
              (ops := sampleArena) 1 0%nat 0 200
              (worldOf [trailingRight] (stopped 0))))
      !! 0%nat = Some p'
    /\ (0 <= nextTileProgress p')%Q /\ (nextTileProgress p' <= 1)%Q.
Proof.
  apply (loop_keeps_progress_in_range
           (cfg := sampleConfig) (util := sampleUtil) (ops := sampleArena)
           (worldOf [trailingRight] (stopped 0)) 0%nat trailingRight 1 0 200
           eq_refl).
  - vm_compute. discriminate.
  - vm_compute. discriminate.
  - vm_compute. discriminate.
  - vm_compute. reflexivity.
Defined.
